(** * minilink-backend: the route handlers over the relational store

    A shallow embedding of [src/routes/urlRoutes.ts] and
    [src/routes/userRoutes.ts] together with the three tables declared in
    [src/db/models/schema.ts].  The handlers are functions from a database
    to a reply and a database; the storage statements they await are
    modelled by the module [Pg], constraint by constraint as the schema
    declares them. *)

From Stdlib Require Import ZArith NArith List String Ascii Bool Lia.
From Stdlib Require Import Permutation.
From Stdlib Require Import Strings.Byte.
Import ListNotations.
Open Scope string_scope.

(** ** Column types *)

(** A [string] holds a text as its UTF-8 bytes, one to four per character. *)

(** A [uuid] column holds a 128-bit value; only equality is ever used. *)
Definition uuid := N.

(** A JS [Date] and a [timestamp] column, as milliseconds since the epoch. *)
Definition timestamp := Z.

(** ** The tables of [schema.ts] *)

Module Users.
Record row := mk
  { id : uuid;
    firstName : string;
    lastName : string;
    email : string;
    phoneNumber : option string;
    profileImageUrl : option string }.
End Users.

Module Urls.
Record row := mk
  { id : string;
    originalUrl : string;
    shortUrl : string;
    userId : option uuid }.
End Urls.

Module Clicks.
Record row := mk
  { id : uuid;
    urlId : option string;
    clickCount : option Z;
    lastClickedAt : option timestamp }.

Inductive column := Id | UrlId | ClickCount | LastClickedAt.

Definition column_eqb (a b : column) : bool :=
  match a, b with
  | Id, Id | UrlId, UrlId | ClickCount, ClickCount
  | LastClickedAt, LastClickedAt => true
  | _, _ => false
  end.

(** [pgTable('clicks', ...)] declares one unique index, the primary key
    on [id]; [urlId] only carries [references(() => urls.id)].  The
    migration's [CREATE TABLE "clicks"] has no other either. *)
Definition unique_indexes : list (list column) := [[Id]].
End Clicks.

Record database := mkdb
  { users : list Users.row;
    urls : list Urls.row;
    clicks : list Clicks.row }.

Definition empty_db : database := mkdb [] [] [].

(** ** The storage engine, as far as the handlers use it *)

Module Pg.

Inductive error :=
| unique_violation (constraint : string)              (* 23505 *)
| foreign_key_violation (table constraint : string)   (* 23503 *)
| string_data_right_truncation (type : string)        (* 22001 *)
| numeric_value_out_of_range                          (* 22003 *)
| character_not_in_repertoire                         (* 22021 *)
| invalid_column_reference.                           (* 42P10 *)

Definition quoted (s : string) : string :=
  String (ascii_of_nat 34) s ++ String (ascii_of_nat 34) EmptyString.

(** The [message] property of the [Error] the driver throws. *)
Definition message (e : error) : string :=
  match e with
  | unique_violation c =>
      "duplicate key value violates unique constraint " ++ quoted c
  | foreign_key_violation t c =>
      "insert or update on table " ++ quoted t
        ++ " violates foreign key constraint " ++ quoted c
  | string_data_right_truncation ty => "value too long for type " ++ ty
  | numeric_value_out_of_range => "integer out of range"
  | character_not_in_repertoire =>
      "invalid byte sequence for encoding " ++ quoted "UTF8" ++ ": 0x00"
  | invalid_column_reference =>
      "there is no unique or exclusion constraint matching the ON CONFLICT specification"
  end.

Definition result (A : Type) : Type := (error + A)%type.

(** A statement either fails and leaves the database as it was, or
    succeeds with a value and the database it leaves. *)
Definition statement (A : Type) : Type := database -> result (A * database).

Definition optb {A} (eqb : A -> A -> bool) (x : option A) (y : A) : bool :=
  match x with Some x' => eqb x' y | None => false end.

(** *** Text values

    A text parameter must be legal UTF-8 and must not hold U+0000; one
    that is not fails the statement with 22021 before any row is looked
    at (the message then names the offending bytes, 0x00 for U+0000). *)

Definition between (lo hi : N) (c : ascii) : bool :=
  (lo <=? N_of_ascii c)%N && (N_of_ascii c <=? hi)%N.

(** The second byte of a three-byte and of a four-byte character. *)
Definition second_of_three (a b : ascii) : bool :=
  if between 224 224 a then between 160 191 b
  else if between 237 237 a then between 128 159 b
  else between 128 191 b.

Definition second_of_four (a b : ascii) : bool :=
  if between 240 240 a then between 144 191 b
  else if between 244 244 a then between 128 143 b
  else between 128 191 b.

Fixpoint legal_text (s : string) : bool :=
  match s with
  | EmptyString => true
  | String a r =>
      if between 1 127 a then legal_text r
      else
        match r with
        | String b r1 =>
            if between 194 223 a then between 128 191 b && legal_text r1
            else
              match r1 with
              | String c r2 =>
                  if between 224 239 a
                  then second_of_three a b && between 128 191 c
                       && legal_text r2
                  else
                    match r2 with
                    | String d r3 =>
                        between 240 244 a && second_of_four a b
                        && between 128 191 c && between 128 191 d
                        && legal_text r3
                    | EmptyString => false
                    end
              | EmptyString => false
              end
        | EmptyString => false
        end
  end.

Definition legal_text_opt (s : option string) : bool :=
  match s with Some v => legal_text v | None => true end.

(** Characters, not bytes: a byte [10xxxxxx] continues a character. *)
Definition is_continuation (c : ascii) : bool := between 128 191 c.

Fixpoint char_length (s : string) : nat :=
  match s with
  | EmptyString => O
  | String c r => if is_continuation c then char_length r
                  else S (char_length r)
  end.

(** The first [n] characters of a text, and what follows them. *)
Fixpoint take_chars (n : nat) (s : string) : string :=
  match s with
  | EmptyString => EmptyString
  | String c r =>
      if is_continuation c then String c (take_chars n r)
      else match n with
           | O => EmptyString
           | S k => String c (take_chars k r)
           end
  end.

Fixpoint drop_chars (n : nat) (s : string) : string :=
  match s with
  | EmptyString => EmptyString
  | String c r =>
      if is_continuation c then drop_chars n r
      else match n with
           | O => s
           | S k => drop_chars k r
           end
  end.

(** *** Assignment to a [varchar(n)] column: [n] counts characters;
    excess spaces are cut, any other excess is an error. *)

Fixpoint all_spaces (s : string) : bool :=
  match s with
  | EmptyString => true
  | String c r => Ascii.eqb c " " && all_spaces r
  end.

Definition varchar (n : nat) (ty : string) (s : string) : result string :=
  if (char_length s <=? n)%nat then inr s
  else if all_spaces (drop_chars n s)
       then inr (take_chars n s)
       else inl (string_data_right_truncation ty).

Definition varchar_opt (n : nat) (ty : string) (s : option string)
  : result (option string) :=
  match s with
  | None => inr None
  | Some v => match varchar n ty v with
              | inl e => inl e
              | inr v' => inr (Some v')
              end
  end.

Definition int4 (z : Z) : result Z :=
  if ((- 2 ^ 31 <=? z) && (z <? 2 ^ 31))%Z then inr z
  else inl numeric_value_out_of_range.

(** *** [db.select().from(t).where(eq(col, v))] *)

Definition select_users_by_id (userId : uuid) : statement (list Users.row) :=
  fun db => inr (filter (fun u => N.eqb (Users.id u) userId) (users db), db).

Definition select_urls_by_id (shortId : string) : statement (list Urls.row) :=
  fun db => inr (filter (fun u => String.eqb (Urls.id u) shortId) (urls db), db).

(** *** [.from(urls).leftJoin(clicks, eq(urls.id, clicks.urlId))] *)

(** The rows a left row joins to: one per match, or one with nulls. *)
Definition joined {A B} (on : A -> B -> bool) (a : A) (r : list B)
  : list (A * option B) :=
  match filter (on a) r with
  | [] => [(a, None)]
  | bs => map (fun b => (a, Some b)) bs
  end.

Definition join_rows {A B} (on : A -> B -> bool) (l : list A) (r : list B)
  : list (A * option B) :=
  flat_map (fun a => joined on a r) l.

(** A query without ORDER BY returns its rows in an order of the engine's
    choosing.  The choice is a list of ranks, one per row: rows come out
    by ascending rank, rows of equal rank as they were; a missing rank is
    0. *)
Fixpoint insert_ranked {A} (k : nat) (x : A) (l : list (nat * A))
  : list (nat * A) :=
  match l with
  | [] => [(k, x)]
  | (k', y) :: rest =>
      if (k <=? k')%nat then (k, x) :: l
      else (k', y) :: insert_ranked k x rest
  end.

Fixpoint ranked {A} (ranks : list nat) (rows : list A) : list (nat * A) :=
  match rows with
  | [] => []
  | x :: rest => insert_ranked (hd O ranks) x (ranked (tl ranks) rest)
  end.

Definition arrange {A} (ranks : list nat) (rows : list A) : list A :=
  map snd (ranked ranks rows).

Definition leftJoin {A B} (order : list nat) (on : A -> B -> bool)
  (l : list A) (r : list B) : list (A * option B) :=
  arrange order (join_rows on l r).

(** [eq(urls.id, clicks.urlId)]: never true on a NULL [url_id]. *)
Definition urls_id_eq_clicks_urlId (u : Urls.row) (c : Clicks.row) : bool :=
  optb String.eqb (Clicks.urlId c) (Urls.id u).

Definition select_urls_leftJoin_clicks (order : list nat)
  (cond : Urls.row -> bool)
  : statement (list (Urls.row * option Clicks.row)) :=
  fun db =>
    inr (filter (fun j => cond (fst j))
           (leftJoin order urls_id_eq_clicks_urlId (urls db) (clicks db)),
         db).

(** *** [db.insert(users).values(v).returning(...)]

    The [id] column takes its default, [gen_random_uuid()]. *)

Definition insert_users (gen_random_uuid : uuid)
  (firstName lastName email : string)
  (phoneNumber profileImageUrl : option string)
  : statement (list Users.row) :=
  fun db =>
    if negb (legal_text firstName && legal_text lastName && legal_text email
             && legal_text_opt phoneNumber && legal_text_opt profileImageUrl)
    then inl character_not_in_repertoire
    else
    match varchar 50 "character varying(50)" firstName with
    | inl e => inl e
    | inr first_name =>
    match varchar 50 "character varying(50)" lastName with
    | inl e => inl e
    | inr last_name =>
    match varchar 100 "character varying(100)" email with
    | inl e => inl e
    | inr email' =>
    match varchar_opt 15 "character varying(15)" phoneNumber with
    | inl e => inl e
    | inr phone_number =>
        let new := Users.mk gen_random_uuid first_name last_name email'
                     phone_number profileImageUrl in
        if existsb (fun u => N.eqb (Users.id u) gen_random_uuid) (users db)
        then inl (unique_violation "users_pkey")
        else if existsb (fun u => String.eqb (Users.email u) email') (users db)
        then inl (unique_violation "users_email_unique")
        else inr ([new], mkdb (users db ++ [new]) (urls db) (clicks db))
    end end end end.

(** *** [db.insert(urls).values(v).returning(...)]

    The text it is given is the hex id, a string of [format: 'uri'] and
    the short URL built from the request line, all plain ASCII. *)

Definition insert_urls (v : Urls.row) : statement (list Urls.row) :=
  fun db =>
    match varchar 8 "character varying(8)" (Urls.id v) with
    | inl e => inl e
    | inr id =>
        let new := Urls.mk id (Urls.originalUrl v) (Urls.shortUrl v)
                     (Urls.userId v) in
        if existsb (fun u => String.eqb (Urls.id u) id) (urls db)
        then inl (unique_violation "urls_pkey")
        else if existsb (fun u => String.eqb (Urls.shortUrl u) (Urls.shortUrl v))
                  (urls db)
        then inl (unique_violation "urls_short_url_unique")
        else match Urls.userId v with
             | Some owner =>
                 if existsb (fun u => N.eqb (Users.id u) owner) (users db)
                 then inr ([new], mkdb (users db) (urls db ++ [new]) (clicks db))
                 else inl (foreign_key_violation "urls" "urls_user_id_users_id_fk")
             | None => inr ([new], mkdb (users db) (urls db ++ [new]) (clicks db))
             end
    end.

(** *** [db.insert(clicks).values(v).onConflictDoUpdate({ target, set })]

    [INSERT ... ON CONFLICT (target) DO UPDATE SET ...] needs an arbiter:
    a unique index of the table on exactly the target columns.  Without
    one the statement is rejected whatever the table holds.  With one,
    the row that conflicts on the arbiter is updated by [set]; with no
    such row the new row is inserted, subject to the table's other
    constraints. *)

Inductive value :=
| Null
| Text (s : string)
| Integer (z : Z)
| Uuid (u : uuid)
| Timestamp (t : timestamp).

Definition of_option {A} (inj : A -> value) (x : option A) : value :=
  match x with Some a => inj a | None => Null end.

Definition get (c : Clicks.column) (r : Clicks.row) : value :=
  match c with
  | Clicks.Id => Uuid (Clicks.id r)
  | Clicks.UrlId => of_option Text (Clicks.urlId r)
  | Clicks.ClickCount => of_option Integer (Clicks.clickCount r)
  | Clicks.LastClickedAt => of_option Timestamp (Clicks.lastClickedAt r)
  end.

(** Equality as a unique index sees it: NULL equals nothing. *)
Definition index_eqb (a b : value) : bool :=
  match a, b with
  | Text x, Text y => String.eqb x y
  | Integer x, Integer y => Z.eqb x y
  | Uuid x, Uuid y => N.eqb x y
  | Timestamp x, Timestamp y => Z.eqb x y
  | _, _ => false
  end.

Definition conflict (key : list Clicks.column) (a b : Clicks.row) : bool :=
  forallb (fun c => index_eqb (get c a) (get c b)) key.

Definition same_columns (a b : list Clicks.column) : bool :=
  forallb (fun c => existsb (Clicks.column_eqb c) b) a
  && forallb (fun c => existsb (Clicks.column_eqb c) a) b.

Fixpoint update_where (p : Clicks.row -> bool)
  (set : Clicks.row -> result Clicks.row) (tbl : list Clicks.row)
  : result (list Clicks.row) :=
  match tbl with
  | [] => inr []
  | r :: rest =>
      match update_where p set rest with
      | inl e => inl e
      | inr rest' =>
          if p r then match set r with
                      | inl e => inl e
                      | inr r' => inr (r' :: rest')
                      end
          else inr (r :: rest')
      end
  end.

Definition insert_clicks_onConflictDoUpdate
  (indexes : list (list Clicks.column)) (target : list Clicks.column)
  (new : Clicks.row) (set : Clicks.row -> result Clicks.row)
  : statement unit :=
  fun db =>
    if existsb (same_columns target) indexes then
      if existsb (conflict target new) (clicks db) then
        match update_where (conflict target new) set (clicks db) with
        | inl e => inl e
        | inr tbl => inr (tt, mkdb (users db) (urls db) tbl)
        end
      else if existsb (fun key => existsb (conflict key new) (clicks db)) indexes
      then inl (unique_violation "clicks_pkey")
      else match Clicks.urlId new with
           | Some u =>
               if existsb (fun r => String.eqb (Urls.id r) u) (urls db)
               then inr (tt, mkdb (users db) (urls db) (clicks db ++ [new]))
               else inl (foreign_key_violation "clicks" "clicks_url_id_urls_id_fk")
           | None => inr (tt, mkdb (users db) (urls db) (clicks db ++ [new]))
           end
    else inl invalid_column_reference.

End Pg.


(** ** What a request reads from outside the database *)

Record ambient := mkamb
  { protocol : string;             (* request.protocol *)
    hostname : string;             (* request.hostname *)
    entropy : nat -> byte;         (* the bytes crypto.randomBytes draws *)
    clock : nat -> timestamp;      (* the value of the k-th new Date() *)
    gen_random_uuid : uuid;        (* the default of a uuid primary key *)
    row_order : list nat }.        (* the order a join's rows come back in *)

(** [crypto.randomBytes(n)]: a buffer of exactly [n] bytes. *)
Definition randomBytes (amb : ambient) (n : nat) : list byte :=
  map (entropy amb) (seq 0 n).

(** [buffer.toString('hex')]: two lower-case digits per byte. *)
Definition hex_digit (n : N) : ascii :=
  match n with
  | 0 => "0" | 1 => "1" | 2 => "2" | 3 => "3" | 4 => "4" | 5 => "5"
  | 6 => "6" | 7 => "7" | 8 => "8" | 9 => "9" | 10 => "a" | 11 => "b"
  | 12 => "c" | 13 => "d" | 14 => "e" | _ => "f"
  end%N%char.

Definition hex_of_byte (b : byte) : string :=
  String (hex_digit (Byte.to_N b / 16))
    (String (hex_digit (Byte.to_N b mod 16)) EmptyString).

Fixpoint toString_hex (buffer : list byte) : string :=
  match buffer with
  | [] => EmptyString
  | b :: rest => hex_of_byte b ++ toString_hex rest
  end.

(** [s.includes(sub)] *)
Definition includes (s sub : string) : bool :=
  match index 0 sub s with Some _ => true | None => false end.

(** ** Replies

    A reply is the status code, the Location header and the object the
    handler hands to [reply.send], before any serialization. *)

Record user_url := mkuu
  { uu_id : string;
    uu_originalUrl : string;
    uu_shortUrl : string;
    uu_clickCount : option Z;              (* clicks.clickCount *)
    uu_lastClickedAt : option timestamp }. (* clicks.lastClickedAt *)

Inductive payload :=
| no_body
| error_body (error : string)               (* { error } *)
| message_body (message : string)           (* { message } *)
| url_body (id originalUrl shortUrl : string)
| stats_body (id originalUrl shortUrl : string)
    (clickCount : option Z) (lastClickedAt : option timestamp)
| user_body (u : Users.row)
| user_urls_body (rows : list user_url).

Record reply := mkreply
  { statusCode : Z;
    location : option string;
    body : payload }.

(** [reply.status(code).send(p)]; [reply.send(p)] is [send 200 p]. *)
Definition send (code : Z) (p : payload) : reply := mkreply code None p.

(** [reply.redirect(url)] *)
Definition redirect (url : string) : reply := mkreply 302 (Some url) no_body.

(** ** Handlers: awaiting statements inside try/catch *)

Definition handler : Type := database -> reply * database.

Definition async (A : Type) : Type := database -> Pg.result A * database.

Definition resolve {A} (a : A) : async A := fun db => (inr a, db).

Definition await {A B} (s : Pg.statement A) (k : A -> async B) : async B :=
  fun db =>
    match s db with
    | inl error => (inl error, db)
    | inr (a, db') => k a db'
    end.

Notation "x '<--' s ';;' k" := (await s (fun x => k))
  (at level 61, s at next level, right associativity).

Definition try_catch (block : async reply) (catch : Pg.error -> reply)
  : handler :=
  fun db =>
    match block db with
    | (inr r, db') => (r, db')
    | (inl error, db') => (catch error, db')
    end.

(** *** POST /shorten *)

(** The body as the handler destructures it: a property may be
    [undefined]; a [userId] that is there has the route's uuid format. *)
Record ShortenUrlRequest := mkshorten
  { originalUrl : option string;
    userId : option uuid }.

Definition shortUrl_of (amb : ambient) (shortId : string) : string :=
  protocol amb ++ "://" ++ hostname amb ++ "/" ++ shortId.

Definition shorten (amb : ambient) (req : ShortenUrlRequest) : handler :=
  let required :=
    send 400 (error_body "Original URL and User ID are required.") in
  match originalUrl req, userId req with
  | Some originalUrl, Some userId =>
      if String.eqb originalUrl "" then fun db => (required, db)
      else
        let shortId := toString_hex (randomBytes amb 4) in
        let shortUrl := shortUrl_of amb shortId in
        try_catch
          (rows <-- Pg.insert_urls
                      (Urls.mk shortId originalUrl shortUrl (Some userId)) ;;
           resolve
             (send 201
                match hd_error rows with
                | Some newUrl =>
                    url_body (Urls.id newUrl) (Urls.originalUrl newUrl)
                      (Urls.shortUrl newUrl)
                | None => no_body
                end))
          (fun error => send 500 (error_body "Internal Server Error."))
  | _, _ => fun db => (required, db)
  end.

(** *** GET /urls/:id/stats *)

Definition stats (amb : ambient) (id : string) : handler :=
  try_catch
    (rows <-- Pg.select_urls_leftJoin_clicks (row_order amb)
                (fun u => String.eqb (Urls.id u) id) ;;
     resolve
       match hd_error rows with
       | None => send 404 (error_body "URL not found")
       | Some (u, c) =>
           send 200
             (stats_body (Urls.id u) (Urls.originalUrl u) (Urls.shortUrl u)
                (match c with Some c => Clicks.clickCount c | None => None end)
                (match c with Some c => Clicks.lastClickedAt c | None => None end))
       end)
    (fun error => send 500 (error_body "Internal Server Error")).

(** What the route sends.  Fastify serializes the object given to
    [reply.send] by the schema the route declares under [response] for the
    status code.  The 200 of this route declares three strings, the
    integer [clickCount] and the date-time string [lastClickedAt], none of
    them nullable: a null integer is written as 0, a null string as the
    empty string, a Date as its ISO 8601 text.  The other codes declare
    the one string [error]. *)
Inductive json :=
| jnull
| jnumber (n : Z)
| jstring (s : string)
| jdate (t : timestamp).                       (* t.toISOString() *)

Definition asInteger (i : option Z) : json :=
  jnumber (match i with Some n => n | None => 0%Z end).

Definition asString (s : string) : json := jstring s.

Definition asDateTime (d : option timestamp) : json :=
  match d with Some t => jdate t | None => jstring EmptyString end.

Record response := mkresponse
  { code : Z;
    fields : list (string * json) }.

Definition stats_serializer (p : payload) : list (string * json) :=
  match p with
  | stats_body id originalUrl shortUrl clickCount lastClickedAt =>
      [("id", asString id);
       ("originalUrl", asString originalUrl);
       ("shortUrl", asString shortUrl);
       ("clickCount", asInteger clickCount);
       ("lastClickedAt", asDateTime lastClickedAt)]
  | error_body error => [("error", asString error)]
  | _ => []
  end.

Definition stats_route (amb : ambient) (id : string)
  : database -> response * database :=
  fun db =>
    let (r, db') := stats amb id db in
    (mkresponse (statusCode r) (stats_serializer (body r)), db').


(** *** GET /:shortId *)

(** [sql`${clicks.clickCount} + 1`] on an [integer] column. *)
Definition clickCount_plus_1 (c : Clicks.row) : Pg.result (option Z) :=
  match Clicks.clickCount c with
  | None => inr None
  | Some n => match Pg.int4 (n + 1) with
              | inl e => inl e
              | inr m => inr (Some m)
              end
  end.

Definition click_values (amb : ambient) (urlRecord : Urls.row) : Clicks.row :=
  Clicks.mk (gen_random_uuid amb) (Some (Urls.id urlRecord)) (Some 1%Z)
    (Some (clock amb 0)).

Definition click_set (amb : ambient) (c : Clicks.row) : Pg.result Clicks.row :=
  match clickCount_plus_1 c with
  | inl e => inl e
  | inr n => inr (Clicks.mk (Clicks.id c) (Clicks.urlId c) n (Some (clock amb 1)))
  end.

Definition upsert_click (amb : ambient) (urlRecord : Urls.row)
  : Pg.statement unit :=
  Pg.insert_clicks_onConflictDoUpdate Clicks.unique_indexes [Clicks.UrlId]
    (click_values amb urlRecord) (click_set amb).

Definition redirectHandler (amb : ambient) (shortId : string) : handler :=
  try_catch
    (rows <-- Pg.select_urls_by_id shortId ;;
     match hd_error rows with
     | Some urlRecord =>
         _ <-- upsert_click amb urlRecord ;;
         resolve (redirect (Urls.originalUrl urlRecord))
     | None => resolve (send 404 (message_body "Shortened URL not found."))
     end)
    (fun error => send 500 (error_body "Internal Server Error")).

(** *** POST /users *)

Record CreateUserRequest := mkcreate
  { firstName : string;
    lastName : string;
    email : string;
    phoneNumber : option string;
    profileImageUrl : option string }.

Definition createUser (amb : ambient) (req : CreateUserRequest) : handler :=
  try_catch
    (rows <-- Pg.insert_users (gen_random_uuid amb)
                (firstName req) (lastName req) (email req)
                (phoneNumber req) (profileImageUrl req) ;;
     resolve
       (send 201
          match hd_error rows with
          | Some newUser => user_body newUser
          | None => no_body
          end))
    (fun error =>
       if includes (Pg.message error) "duplicate key"
       then send 409 (error_body "Email already exists")
       else send 500 (error_body "Internal Server Error")).

(** *** GET /users/:userId/urls *)

Definition user_url_of (j : Urls.row * option Clicks.row) : user_url :=
  let (u, c) := j in
  mkuu (Urls.id u) (Urls.originalUrl u) (Urls.shortUrl u)
    (match c with Some c => Clicks.clickCount c | None => None end)
    (match c with Some c => Clicks.lastClickedAt c | None => None end).

Definition userUrls (amb : ambient) (userId : uuid) : handler :=
  try_catch
    (found <-- Pg.select_users_by_id userId ;;
     match hd_error found with
     | None => resolve (send 404 (error_body "User not found"))
     | Some user =>
         rows <-- Pg.select_urls_leftJoin_clicks (row_order amb)
                    (fun u => Pg.optb N.eqb (Urls.userId u) userId) ;;
         resolve (send 200 (user_urls_body (map user_url_of rows)))
     end)
    (fun error => send 500 (error_body "Internal Server Error")).

(** ** The service as a whole *)

Inductive request :=
| POST_shorten (req : ShortenUrlRequest)
| GET_urls_stats (id : string)
| GET_shortId (shortId : string)
| POST_users (req : CreateUserRequest)
| GET_users_urls (userId : uuid).

Definition serve (amb : ambient) (r : request) : handler :=
  match r with
  | POST_shorten req => shorten amb req
  | GET_urls_stats id => stats amb id
  | GET_shortId shortId => redirectHandler amb shortId
  | POST_users req => createUser amb req
  | GET_users_urls userId => userUrls amb userId
  end.

(** The database after serving the requests one after the other. *)
Fixpoint run (reqs : list (ambient * request)) (db : database) : database :=
  match reqs with
  | [] => db
  | (amb, r) :: rest => run rest (snd (serve amb r db))
  end.

(** ** Redirects that overlap in time

    A redirect awaits two statements.  Between the two the event loop may
    run any other request, so several redirects in flight are a list of
    tasks, each at its next statement, and a schedule says which task the
    database serves next.  A statement is one atomic step. *)

Inductive task :=
| awaiting_select (shortId : string)
| awaiting_upsert (urlRecord : Urls.row)
| replied (r : reply).

Definition internal_error : reply :=
  send 500 (error_body "Internal Server Error").

Definition advance (amb : ambient) (t : task) (db : database)
  : task * database :=
  match t with
  | awaiting_select shortId =>
      match Pg.select_urls_by_id shortId db with
      | inl error => (replied internal_error, db)
      | inr (rows, db') =>
          match hd_error rows with
          | Some urlRecord => (awaiting_upsert urlRecord, db')
          | None =>
              (replied (send 404 (message_body "Shortened URL not found.")), db')
          end
      end
  | awaiting_upsert urlRecord =>
      match upsert_click amb urlRecord db with
      | inl error => (replied internal_error, db)
      | inr (_, db') => (replied (redirect (Urls.originalUrl urlRecord)), db')
      end
  | replied r => (replied r, db)
  end.

Fixpoint advance_nth (k : nat) (ts : list (ambient * task)) (db : database)
  : list (ambient * task) * database :=
  match ts, k with
  | [], _ => ([], db)
  | (amb, t) :: rest, O =>
      let (t', db') := advance amb t db in ((amb, t') :: rest, db')
  | at_ :: rest, S k' =>
      let (rest', db') := advance_nth k' rest db in (at_ :: rest', db')
  end.

Fixpoint interleave (schedule : list nat) (ts : list (ambient * task))
  (db : database) : list (ambient * task) * database :=
  match schedule with
  | [] => (ts, db)
  | k :: later =>
      let (ts', db') := advance_nth k ts db in interleave later ts' db'
  end.

(** ** The vocabulary of the specification *)

(** The error taxonomy, by the status code that surfaces each class. *)
Inductive error_class :=
| ValidationError | ConflictError | NotFoundError | InternalError.

Definition classify (r : reply) : option error_class :=
  match statusCode r with
  | 400 => Some ValidationError
  | 409 => Some ConflictError
  | 404 => Some NotFoundError
  | 500 => Some InternalError
  | _ => None
  end%Z.

(** The text after the last slash of a URL. *)
Fixpoint segment_from (acc u : string) : string :=
  match u with
  | EmptyString => acc
  | String c rest =>
      if Ascii.eqb c "/" then segment_from EmptyString rest
      else segment_from (acc ++ String c EmptyString) rest
  end.

Definition final_path_segment (u : string) : string :=
  segment_from EmptyString u.

(** At most one click row for each url. *)
Definition click_rows_of (u : string) (db : database) : list Clicks.row :=
  filter (fun c => Pg.optb String.eqb (Clicks.urlId c) u) (clicks db).

Definition one_click_row_per_url (db : database) : Prop :=
  forall u : string, (List.length (click_rows_of u db) <= 1)%nat.

(** No two users with the same email. *)
Definition unique_emails (db : database) : Prop :=
  NoDup (map Users.email (users db)).

(** A url row with this short id is stored. *)
Definition known_url (shortId : string) (db : database) : Prop :=
  exists u, In u (urls db) /\ Urls.id u = shortId.

Definition known_user (userId : uuid) (db : database) : Prop :=
  exists u, In u (users db) /\ Users.id u = userId.

(** What the body schema of POST /users admits, and so what its handler
    can receive: the [maxLength] of each property. *)
Definition within_maxLength (req : CreateUserRequest) : Prop :=
  (Pg.char_length (firstName req) <= 50)%nat
  /\ (Pg.char_length (lastName req) <= 50)%nat
  /\ (Pg.char_length (email req) <= 100)%nat
  /\ match phoneNumber req with
     | Some p => (Pg.char_length p <= 15)%nat
     | None => True
     end.

(** A body whose every string is text the database stores: legal UTF-8
    without U+0000.  The schema does not ask for it. *)
Definition storable (req : CreateUserRequest) : bool :=
  Pg.legal_text (firstName req) && Pg.legal_text (lastName req)
  && Pg.legal_text (email req) && Pg.legal_text_opt (phoneNumber req)
  && Pg.legal_text_opt (profileImageUrl req).

(** ** Auxiliary notions of the statements and proofs *)

Fixpoint no_slash (s : string) : bool :=
  match s with
  | EmptyString => true
  | String c rest => negb (Ascii.eqb c "/") && no_slash rest
  end.

Definition short_url_taken (shortUrl : string) (db : database) : Prop :=
  exists u, In u (urls db) /\ Urls.shortUrl u = shortUrl.

Definition created (amb : ambient) (originalUrl : string) (userId : uuid)
  : Urls.row :=
  let shortId := toString_hex (randomBytes amb 4) in
  Urls.mk shortId originalUrl (shortUrl_of amb shortId) (Some userId).

Definition first_url (id : string) (db : database) : option Urls.row :=
  hd_error (filter (fun u => String.eqb (Urls.id u) id) (urls db)).

Definition owned_by (userId : uuid) (u : Urls.row) : bool :=
  Pg.optb N.eqb (Urls.userId u) userId.

Definition registered (email : string) (db : database) : Prop :=
  exists u, In u (users db) /\ Users.email u = email.

Definition user_of (amb : ambient) (req : CreateUserRequest) : Users.row :=
  Users.mk (gen_random_uuid amb) (firstName req) (lastName req) (email req)
    (phoneNumber req) (profileImageUrl req).

Definition in_flight (ambs : list ambient) (shortId : string)
  : list (ambient * task) :=
  map (fun amb => (amb, awaiting_select shortId)) ambs.

(** What a redirect of [shortId] can be at, once [shortId] is stored. *)
Definition on_course (shortId : string) (t : task) : Prop :=
  match t with
  | awaiting_select s => s = shortId
  | awaiting_upsert _ => True
  | replied r => r = internal_error
  end.

(** The row of the reply that a url row gives rise to. *)
Definition row_for (u : Urls.row) (db : database) (r : user_url) : Prop :=
  uu_id r = Urls.id u
  /\ uu_originalUrl r = Urls.originalUrl u
  /\ uu_shortUrl r = Urls.shortUrl u
  /\ ((click_rows_of (Urls.id u) db = []
       /\ uu_clickCount r = None /\ uu_lastClickedAt r = None)
      \/ exists c, In c (click_rows_of (Urls.id u) db)
                   /\ uu_clickCount r = Clicks.clickCount c
                   /\ uu_lastClickedAt r = Clicks.lastClickedAt c).

(** ** A small database to evaluate on *)

Module Fixture.

Definition bytes (k : nat) : byte :=
  match k with 0 => xde | 1 => xad | 2 => xbe | _ => xef end%nat.

Definition amb : ambient :=
  mkamb "http" "localhost" bytes (fun k => 1000 + Z.of_nat k)%Z 21%N [].

Definition later : ambient :=
  mkamb "http" "localhost" bytes (fun k => 2000 + Z.of_nat k)%Z 22%N [].

Definition last : ambient :=
  mkamb "http" "localhost" bytes (fun k => 3000 + Z.of_nat k)%Z 23%N [].

Definition alice : Users.row :=
  Users.mk 7%N "Alice" "Liddell" "alice@example.com" None None.

Definition link : Urls.row :=
  Urls.mk "deadbeef" "https://example.com/a" "http://localhost/deadbeef"
    (Some 7%N).

(** One user, one of her urls, never clicked. *)
Definition db : database := mkdb [alice] [link] [].

(** The same with a click row put there by hand. *)
Definition clicked : database :=
  mkdb [alice] [link]
    [Clicks.mk 31%N (Some "deadbeef") (Some 5%Z) (Some 900%Z)].

Definition again : CreateUserRequest :=
  mkcreate "Alicia" "Keys" "alice@example.com" None None.

Definition bob : CreateUserRequest :=
  mkcreate "Bob" "Builder" "bob@example.com" (Some "555-0100") None.

(** The clicks table as it would be had [url_id] been declared unique. *)
Definition with_unique_urlId : list (list Clicks.column) :=
  [[Clicks.Id]; [Clicks.UrlId]].

End Fixture.

(** ** What the schema's constraints promise, and what a request does *)

(** The unique indexes of [users] and [urls]. *)
Definition users_pkey (db : database) : Prop :=
  NoDup (map Users.id (users db)).

Definition urls_pkey (db : database) : Prop :=
  NoDup (map Urls.id (urls db)).

Definition urls_short_url_unique (db : database) : Prop :=
  NoDup (map Urls.shortUrl (urls db)).

Definition keys_unique (db : database) : Prop :=
  users_pkey db /\ urls_pkey db /\ urls_short_url_unique db.

(** The two foreign keys: [urls.user_id -> users.id] and
    [clicks.url_id -> urls.id]; a NULL reference points nowhere. *)
Definition urls_user_id_fk (db : database) : Prop :=
  forall u uid, In u (urls db) -> Urls.userId u = Some uid ->
                known_user uid db.

Definition clicks_url_id_fk (db : database) : Prop :=
  forall c id, In c (clicks db) -> Clicks.urlId c = Some id ->
               known_url id db.

Definition referential_integrity (db : database) : Prop :=
  urls_user_id_fk db /\ clicks_url_id_fk db.

(** The digits [toString('hex')] writes. *)
Definition is_lower_hex (c : ascii) : bool :=
  existsb (Ascii.eqb c) (list_ascii_of_string "0123456789abcdef").

Fixpoint lower_hex (s : string) : bool :=
  match s with
  | EmptyString => true
  | String c rest => is_lower_hex c && lower_hex rest
  end.

(** A url row as POST /shorten makes them: an id of 8 hex digits that is
    the last segment of the short URL. *)
Definition minted (u : Urls.row) : Prop :=
  String.length (Urls.id u) = 8%nat
  /\ lower_hex (Urls.id u) = true
  /\ final_path_segment (Urls.shortUrl u) = Urls.id u.

Definition all_minted (db : database) : Prop :=
  forall u, In u (urls db) -> minted u.

(** What one request can do to the database: nothing, or append one user
    whose id and email are new, or append one url of a stored user whose
    id and short URL are new. *)
Inductive effect (db : database) : database -> Prop :=
| no_effect : effect db db
| user_added (new : Users.row) :
    ~ known_user (Users.id new) db ->
    ~ registered (Users.email new) db ->
    effect db (mkdb (users db ++ [new]) (urls db) (clicks db))
| url_added (amb : ambient) (o : string) (uid : uuid) :
    known_user uid db ->
    ~ known_url (Urls.id (created amb o uid)) db ->
    ~ short_url_taken (Urls.shortUrl (created amb o uid)) db ->
    effect db (mkdb (users db) (urls db ++ [created amb o uid]) (clicks db)).


(** ** A day of requests to evaluate on *)

Module Sample.

(** A second host, drawing the bytes 0a 0a 0a 0a. *)
Definition mini : ambient :=
  mkamb "https" "mini.link" (fun _ => x0a) (fun k => 5000 + Z.of_nat k)%Z 41%N
    [1; 0]%nat.

(** A signup with the email of the stored user and U+0000 in the first
    name: four characters, which the body schema admits. *)
Definition nul_name : CreateUserRequest :=
  mkcreate ("Bo" ++ String Ascii.zero "b") "Marley" "alice@example.com"
    None None.

Definition page : ShortenUrlRequest :=
  mkshorten (Some "https://example.com/page") (Some 7%N).

(** A signup, a new link by the stored user, a redirect of each link, the
    stats of the new link, the user's list, and the signup again. *)
Definition day : list (ambient * request) :=
  [(Fixture.amb, POST_users Fixture.bob);
   (mini, POST_shorten page);
   (Fixture.later, GET_shortId "deadbeef");
   (Fixture.later, GET_shortId "0a0a0a0a");
   (Fixture.last, GET_urls_stats "0a0a0a0a");
   (Fixture.last, GET_users_urls 7%N);
   (Fixture.last, POST_users Fixture.bob)].

End Sample.

(** * Lemmas *)

(** ** Lists and filters *)

Lemma filter_empty_iff {A} (f : A -> bool) (l : list A) :
  filter f l = [] <-> forall x, In x l -> f x = false.
Proof.
  induction l as [|a l IH]; simpl.
  - split; [intros _ x []|reflexivity].
  - destruct (f a) eqn:E; split.
    + discriminate.
    + intros H. specialize (H a (or_introl eq_refl)). congruence.
    + intros H x [<-|Hx]; [assumption|]. now apply IH.
    + intros H. apply IH. intros x Hx. apply H. now right.
Qed.

Lemma hd_filter_some {A} (f : A -> bool) (l : list A) (x : A) :
  hd_error (filter f l) = Some x -> In x l /\ f x = true.
Proof.
  intros H. destruct (filter f l) as [|y r] eqn:E; [discriminate|].
  injection H as ->. apply filter_In. rewrite E. now left.
Qed.

Lemma hd_filter_none {A} (f : A -> bool) (l : list A) :
  hd_error (filter f l) = None -> forall x, In x l -> f x = false.
Proof.
  intros H. apply filter_empty_iff.
  destruct (filter f l); [reflexivity|discriminate].
Qed.

Lemma hd_error_in {A} (l : list A) (x : A) : hd_error l = Some x -> In x l.
Proof. destruct l; [discriminate|]. intros H. injection H as ->. now left. Qed.

Lemma existsb_false_iff {A} (f : A -> bool) (l : list A) :
  existsb f l = false <-> forall x, In x l -> f x = false.
Proof.
  induction l as [|a l IH]; simpl.
  - split; [intros _ x []|reflexivity].
  - rewrite orb_false_iff, IH. split.
    + intros [Ha Hl] x [<-|Hx]; auto.
    + intros H. split; [|intros x Hx]; apply H; auto.
Qed.

(** ** The redirect handler *)

(** The clicks table has no unique index on [url_id], so the upsert names
    an arbiter that does not exist. *)
Lemma upsert_click_rejected (amb : ambient) (u : Urls.row) (db : database) :
  upsert_click amb u db = inl Pg.invalid_column_reference.
Proof. reflexivity. Qed.

Lemma redirectHandler_known (amb : ambient) (shortId : string) (db : database) :
  known_url shortId db ->
  redirectHandler amb shortId db = (internal_error, db).
Proof.
  intros (u & Hin & Hid).
  unfold redirectHandler, try_catch, await, Pg.select_urls_by_id.
  destruct (hd_error _) as [urlRecord|] eqn:E.
  - rewrite upsert_click_rejected. reflexivity.
  - apply hd_filter_none with (x := u) in E; [|assumption].
    rewrite Hid, String.eqb_refl in E. discriminate.
Qed.


Lemma redirectHandler_frame (amb : ambient) (shortId : string) (db : database) :
  snd (redirectHandler amb shortId db) = db.
Proof.
  unfold redirectHandler, try_catch, await, Pg.select_urls_by_id.
  destruct (hd_error _); [rewrite upsert_click_rejected|]; reflexivity.
Qed.

(** The task view and the handler agree: a redirect is its two steps. *)
Lemma advance_twice (amb : ambient) (shortId : string) (db : database) :
  let (t1, db1) := advance amb (awaiting_select shortId) db in
  let (t2, db2) := advance amb t1 db1 in
  let (r, db') := redirectHandler amb shortId db in
  t2 = replied r /\ db2 = db'.
Proof.
  unfold redirectHandler, try_catch, await, advance at 1.
  unfold Pg.select_urls_by_id.
  destruct (hd_error _) as [urlRecord|]; cbn -[upsert_click].
  - rewrite upsert_click_rejected. split; reflexivity.
  - split; reflexivity.
Qed.

(** ** Short ids *)

Lemma append_assoc (a b c : string) : (a ++ b) ++ c = a ++ (b ++ c).
Proof. induction a as [|x a IH]; simpl; [reflexivity|now rewrite IH]. Qed.

Lemma append_empty_r (a : string) : a ++ EmptyString = a.
Proof. induction a as [|x a IH]; simpl; [reflexivity|now rewrite IH]. Qed.

Lemma randomBytes_length (amb : ambient) (n : nat) :
  List.length (randomBytes amb n) = n.
Proof. unfold randomBytes. now rewrite length_map, length_seq. Qed.

Lemma toString_hex_length (buffer : list byte) :
  String.length (toString_hex buffer) = (2 * List.length buffer)%nat.
Proof.
  induction buffer as [|b rest IH]; [reflexivity|].
  cbn [toString_hex hex_of_byte append String.length List.length].
  rewrite IH. lia.
Qed.

Lemma shortId_length (amb : ambient) :
  String.length (toString_hex (randomBytes amb 4)) = 8%nat.
Proof. now rewrite toString_hex_length, randomBytes_length. Qed.

Lemma hex_digit_no_slash (n : N) : Ascii.eqb (hex_digit n) "/" = false.
Proof.
  destruct n as [|p]; [reflexivity|].
  do 4 (try destruct p as [p|p|]); reflexivity.
Qed.

Lemma toString_hex_no_slash (buffer : list byte) :
  no_slash (toString_hex buffer) = true.
Proof.
  induction buffer as [|b rest IH]; [reflexivity|].
  cbn [toString_hex hex_of_byte append no_slash].
  now rewrite !hex_digit_no_slash, IH.
Qed.

Lemma segment_from_no_slash (s acc : string) :
  no_slash s = true -> segment_from acc s = acc ++ s.
Proof.
  revert acc. induction s as [|c s IH]; intros acc H; simpl in *.
  - now rewrite append_empty_r.
  - apply andb_true_iff in H as [Hc Hs].
    apply negb_true_iff in Hc. rewrite Hc, IH by assumption.
    now rewrite append_assoc.
Qed.

Lemma segment_from_after_slash (p s acc : string) :
  segment_from acc (p ++ String "/" s) = segment_from EmptyString s.
Proof.
  revert acc. induction p as [|c p IH]; intros acc; simpl.
  - reflexivity.
  - destruct (Ascii.eqb c "/"); apply IH.
Qed.

Lemma final_path_segment_shortUrl (amb : ambient) (shortId : string) :
  no_slash shortId = true ->
  final_path_segment (shortUrl_of amb shortId) = shortId.
Proof.
  intros H. unfold final_path_segment, shortUrl_of.
  replace (protocol amb ++ "://" ++ hostname amb ++ "/" ++ shortId)
    with ((protocol amb ++ "://" ++ hostname amb) ++ String "/" shortId)
    by (now rewrite !append_assoc).
  rewrite segment_from_after_slash. now apply segment_from_no_slash.
Qed.

(** ** The shorten handler *)

Lemma char_length_le (s : string) :
  (Pg.char_length s <= String.length s)%nat.
Proof.
  induction s as [|c s IH]; cbn; [lia|].
  destruct (Pg.is_continuation c); lia.
Qed.

Lemma varchar_fits (n : nat) (ty s : string) :
  (Pg.char_length s <= n)%nat -> Pg.varchar n ty s = inr s.
Proof.
  intros H. unfold Pg.varchar.
  now apply Nat.leb_le in H as ->.
Qed.

Lemma known_url_existsb (shortId : string) (db : database) :
  existsb (fun u => String.eqb (Urls.id u) shortId) (urls db) = true
  <-> known_url shortId db.
Proof.
  rewrite existsb_exists. unfold known_url.
  split; intros (u & Hin & H); exists u; split; auto;
    now apply String.eqb_eq.
Qed.

Lemma short_url_taken_existsb (shortUrl : string) (db : database) :
  existsb (fun u => String.eqb (Urls.shortUrl u) shortUrl) (urls db) = true
  <-> short_url_taken shortUrl db.
Proof.
  rewrite existsb_exists. unfold short_url_taken.
  split; intros (u & Hin & H); exists u; split; auto;
    now apply String.eqb_eq.
Qed.

Lemma known_user_existsb (userId : uuid) (db : database) :
  existsb (fun u => N.eqb (Users.id u) userId) (users db) = true
  <-> known_user userId db.
Proof.
  rewrite existsb_exists. unfold known_user.
  split; intros (u & Hin & H); exists u; split; auto;
    now apply N.eqb_eq.
Qed.

(** The decision the insert takes, one constraint after the other. *)
Lemma shorten_decided (amb : ambient) (o : string) (uid : uuid) (db : database) :
  o <> "" ->
  shorten amb (mkshorten (Some o) (Some uid)) db =
  let new := created amb o uid in
  let failed := (send 500 (error_body "Internal Server Error."), db) in
  if existsb (fun u => String.eqb (Urls.id u) (Urls.id new)) (urls db)
  then failed
  else if existsb (fun u => String.eqb (Urls.shortUrl u) (Urls.shortUrl new))
            (urls db)
  then failed
  else if existsb (fun u => N.eqb (Users.id u) uid) (users db)
  then (send 201 (url_body (Urls.id new) o (Urls.shortUrl new)),
        mkdb (users db) (urls db ++ [new]) (clicks db))
  else failed.
Proof.
  intros Ho. apply String.eqb_neq in Ho.
  unfold shorten. cbn [originalUrl userId]. rewrite Ho.
  unfold try_catch, await, Pg.insert_urls, created.
  cbn [Urls.id Urls.originalUrl Urls.shortUrl Urls.userId].
  rewrite varchar_fits
    by (rewrite <- (shortId_length amb); apply char_length_le).
  repeat match goal with |- context [existsb ?f ?l] =>
    destruct (existsb f l); try reflexivity end.
Qed.

(** The 400 check of POST /shorten is decidable. *)
Lemma required_or_not (req : ShortenUrlRequest) :
  (originalUrl req = None \/ originalUrl req = Some "" \/ userId req = None)
  \/ ~ (originalUrl req = None \/ originalUrl req = Some ""
        \/ userId req = None).
Proof.
  destruct req as [[o|] [uid|]]; cbn; auto.
  destruct (String.eqb_spec o "") as [->|Ho]; auto.
  right. intros [H|[H|H]]; congruence.
Qed.

Lemma shorten_required (amb : ambient) (req : ShortenUrlRequest) (db : database) :
  originalUrl req = None \/ originalUrl req = Some "" \/ userId req = None ->
  shorten amb req db
  = (send 400 (error_body "Original URL and User ID are required."), db).
Proof.
  destruct req as [[o|] [u|]]; cbn [originalUrl userId]; unfold shorten;
    cbn [originalUrl userId]; intros [H|[H|H]]; try discriminate;
    try reflexivity.
  injection H as ->. reflexivity.
Qed.

(** ** Left joins *)

Section LeftJoin.
Context {A B : Type} (on : A -> B -> bool).

Lemma joined_fst (a : A) (r : list B) (j : A * option B) :
  In j (Pg.joined on a r) -> fst j = a.
Proof.
  unfold Pg.joined. destruct (filter (on a) r) as [|b bs].
  - intros [<-|[]]. reflexivity.
  - intros H. apply in_map_iff in H as (b' & <- & _). reflexivity.
Qed.

Lemma in_joined (a : A) (r : list B) (a' : A) (ob : option B) :
  In (a', ob) (Pg.joined on a r) <->
  a' = a /\ match ob with
            | None => filter (on a) r = []
            | Some b => In b (filter (on a) r)
            end.
Proof.
  unfold Pg.joined. destruct (filter (on a) r) as [|b bs] eqn:E.
  - simpl. split.
    + intros [H|[]]. injection H as <- <-. now split.
    + intros [-> H]. destruct ob as [b|]; [destruct H|now left].
  - rewrite in_map_iff. split.
    + intros (b' & H & Hin). injection H as <- <-. now split.
    + intros [-> H]. destruct ob as [b'|]; [|discriminate].
      now exists b'.
Qed.

Lemma filter_joined (cond : A -> bool) (a : A) (r : list B) :
  filter (fun j => cond (fst j)) (Pg.joined on a r)
  = if cond a then Pg.joined on a r else [].
Proof.
  destruct (cond a) eqn:E.
  - apply forallb_filter_id. apply forallb_forall.
    intros j Hj. now rewrite (joined_fst _ _ _ Hj).
  - apply filter_empty_iff.
    intros j Hj. now rewrite (joined_fst _ _ _ Hj).
Qed.


Lemma in_join_rows_filter (cond : A -> bool) (l : list A) (r : list B)
  (a : A) (ob : option B) :
  In (a, ob) (filter (fun j => cond (fst j)) (Pg.join_rows on l r)) <->
  In a l /\ cond a = true
  /\ match ob with
     | None => filter (on a) r = []
     | Some b => In b (filter (on a) r)
     end.
Proof.
  rewrite filter_In. cbn [fst]. unfold Pg.join_rows. rewrite in_flat_map.
  split.
  - intros ((a' & Hin & Hj) & Hc).
    apply (in_joined a' r a ob) in Hj as [-> Hj]. auto.
  - intros (Hin & Hc & Hj). split; [|assumption].
    exists a. split; [assumption|]. now apply (in_joined a r a ob).
Qed.


End LeftJoin.

(** ** The order of a result *)

Section Arrange.
Context {A : Type}.

Lemma insert_ranked_perm (k : nat) (x : A) (l : list (nat * A)) :
  Permutation (map snd (Pg.insert_ranked k x l)) (x :: map snd l).
Proof.
  induction l as [|[k' y] l IH]; cbn; [reflexivity|].
  destruct (k <=? k')%nat; cbn; [reflexivity|].
  rewrite IH. apply perm_swap.
Qed.

Lemma arrange_perm (ranks : list nat) (rows : list A) :
  Permutation (Pg.arrange ranks rows) rows.
Proof.
  unfold Pg.arrange. revert ranks.
  induction rows as [|x rows IH]; intros ranks; cbn; [reflexivity|].
  rewrite insert_ranked_perm. constructor. apply IH.
Qed.

Lemma in_arrange (ranks : list nat) (rows : list A) (x : A) :
  In x (Pg.arrange ranks rows) <-> In x rows.
Proof.
  split; apply Permutation_in;
    [apply arrange_perm|symmetry; apply arrange_perm].
Qed.

Lemma filter_perm (f : A -> bool) (l l' : list A) :
  Permutation l l' -> Permutation (filter f l) (filter f l').
Proof.
  induction 1 as [|x l l' _ IH|x y l|l l' l'' _ IH1 _ IH2]; cbn.
  - reflexivity.
  - destruct (f x); [constructor|]; exact IH.
  - destruct (f x), (f y); try reflexivity. apply perm_swap.
  - now rewrite IH1.
Qed.

End Arrange.

(** All six orders of three rows come from some ranks. *)
Example arrange_three :
  map (fun ranks => Pg.arrange ranks ["a"; "b"; "c"])
    [[]; [0; 2; 1]; [1; 0; 1]; [2; 0; 1]; [1; 1; 0]; [2; 1; 0]]%nat
  = [["a"; "b"; "c"]; ["a"; "c"; "b"]; ["b"; "a"; "c"]; ["b"; "c"; "a"];
     ["c"; "a"; "b"]; ["c"; "b"; "a"]].
Proof. reflexivity. Qed.

Section ArrangedJoin.
Context {A B : Type} (on : A -> B -> bool).

Lemma leftJoin_filter_perm (order : list nat) (cond : A -> bool)
  (l : list A) (r : list B) :
  Permutation
    (filter (fun j => cond (fst j)) (Pg.leftJoin order on l r))
    (filter (fun j => cond (fst j)) (Pg.join_rows on l r)).
Proof. apply filter_perm, arrange_perm. Qed.

Lemma in_leftJoin_filter (order : list nat) (cond : A -> bool)
  (l : list A) (r : list B) (a : A) (ob : option B) :
  In (a, ob) (filter (fun j => cond (fst j)) (Pg.leftJoin order on l r)) <->
  In a l /\ cond a = true
  /\ match ob with
     | None => filter (on a) r = []
     | Some b => In b (filter (on a) r)
     end.
Proof.
  rewrite <- (in_join_rows_filter on cond l r a ob).
  split; apply Permutation_in;
    [apply leftJoin_filter_perm|symmetry; apply leftJoin_filter_perm].
Qed.

Lemma leftJoin_filter_none (order : list nat) (cond : A -> bool)
  (l : list A) (r : list B) :
  (forall a, In a l -> cond a = false) ->
  filter (fun j => cond (fst j)) (Pg.leftJoin order on l r) = [].
Proof.
  intros H. apply filter_empty_iff. intros [a ob] Hj.
  apply in_arrange in Hj. unfold Pg.join_rows in Hj.
  apply in_flat_map in Hj as (a' & Ha & Hj).
  rewrite (joined_fst on a' r _ Hj). now apply H.
Qed.

(** A left row that passes has a row in the result. *)
Lemma leftJoin_filter_inhabited (order : list nat) (cond : A -> bool)
  (l : list A) (r : list B) (a : A) :
  In a l -> cond a = true ->
  exists ob,
    In (a, ob) (filter (fun j => cond (fst j)) (Pg.leftJoin order on l r)).
Proof.
  intros Hin Hc. exists (hd_error (filter (on a) r)).
  apply in_leftJoin_filter. split; [assumption|]. split; [assumption|].
  destruct (filter (on a) r); [reflexivity|now left].
Qed.

End ArrangedJoin.


(** ** The stats handler *)

Lemma first_url_known (id : string) (db : database) :
  known_url id db ->
  exists u, first_url id db = Some u /\ In u (urls db) /\ Urls.id u = id.
Proof.
  intros (u & Hin & Hid). unfold first_url.
  destruct (hd_error _) as [v|] eqn:E.
  - exists v. split; [reflexivity|].
    apply hd_filter_some in E as [Hv Heq]. split; [assumption|].
    now apply String.eqb_eq.
  - apply hd_filter_none with (x := u) in E; [|assumption].
    rewrite Hid, String.eqb_refl in E. discriminate.
Qed.

Lemma stats_frame (amb : ambient) (id : string) (db : database) :
  snd (stats amb id db) = db.
Proof.
  unfold stats, try_catch, await, Pg.select_urls_leftJoin_clicks, resolve.
  cbv beta iota. destruct (hd_error _) as [[u c]|]; reflexivity.
Qed.

(** The reply is the 404 when no url row has the id; otherwise it is built
    from a url row of that id and from one of its click rows, or from
    none when it has none. *)
Lemma stats_cases (amb : ambient) (id : string) (db : database) :
  (~ known_url id db
   /\ stats amb id db = (send 404 (error_body "URL not found"), db))
  \/ (exists u oc,
        In u (urls db) /\ Urls.id u = id
        /\ match oc with
           | None => click_rows_of id db = []
           | Some c => In c (click_rows_of id db)
           end
        /\ stats amb id db
           = (send 200
                (stats_body id (Urls.originalUrl u) (Urls.shortUrl u)
                   (match oc with
                    | Some c => Clicks.clickCount c
                    | None => None
                    end)
                   (match oc with
                    | Some c => Clicks.lastClickedAt c
                    | None => None
                    end)), db)).
Proof.
  unfold stats, try_catch, await, Pg.select_urls_leftJoin_clicks, resolve.
  cbv beta iota.
  destruct (hd_error _) as [[u oc]|] eqn:E.
  - right. apply hd_error_in in E.
    apply (in_leftJoin_filter Pg.urls_id_eq_clicks_urlId (row_order amb)
             (fun u => String.eqb (Urls.id u) id)) in E
      as (Hin & Hid & Hoc).
    apply String.eqb_eq in Hid. subst id.
    exists u, oc. repeat split; assumption.
  - left. split; [|reflexivity].
    intros (u & Hin & Hid).
    destruct (leftJoin_filter_inhabited Pg.urls_id_eq_clicks_urlId
                (row_order amb) (fun u => String.eqb (Urls.id u) id)
                (urls db) (clicks db) u Hin) as (ob & Hob).
    { now apply String.eqb_eq. }
    destruct (filter _ _); [destruct Hob|discriminate].
Qed.

(** ** The list-urls-by-user handler *)

Lemma owned_by_spec (userId : uuid) (u : Urls.row) :
  owned_by userId u = true <-> Urls.userId u = Some userId.
Proof.
  unfold owned_by, Pg.optb. destruct (Urls.userId u) as [v|].
  - rewrite N.eqb_eq. split; congruence.
  - split; discriminate.
Qed.

Lemma userUrls_decided (amb : ambient) (userId : uuid) (db : database) :
  userUrls amb userId db =
  (if existsb (fun u => N.eqb (Users.id u) userId) (users db)
   then send 200
          (user_urls_body
             (map user_url_of
                (filter (fun j => owned_by userId (fst j))
                   (Pg.leftJoin (row_order amb) Pg.urls_id_eq_clicks_urlId
                      (urls db) (clicks db)))))
   else send 404 (error_body "User not found"), db).
Proof.
  unfold userUrls, try_catch, await, Pg.select_users_by_id.
  destruct (existsb _ (users db)) eqn:E.
  - apply existsb_exists in E as (u & Hin & Hu).
    destruct (hd_error _) as [v|] eqn:F; [reflexivity|].
    apply hd_filter_none with (x := u) in F; congruence.
  - destruct (hd_error _) as [v|] eqn:F; [|reflexivity].
    apply hd_filter_some in F as [Hin Hv].
    rewrite existsb_false_iff in E. rewrite E in Hv by assumption.
    discriminate.
Qed.

(** ** The create-user handler *)

Lemma varchar_opt_fits (n : nat) (ty : string) (s : option string) :
  match s with Some p => (Pg.char_length p <= n)%nat | None => True end ->
  Pg.varchar_opt n ty s = inr s.
Proof.
  destruct s as [p|]; [|reflexivity].
  intros H. unfold Pg.varchar_opt. now rewrite varchar_fits.
Qed.

Lemma registered_existsb (email : string) (db : database) :
  existsb (fun u => String.eqb (Users.email u) email) (users db) = true
  <-> registered email db.
Proof.
  rewrite existsb_exists. unfold registered.
  split; intros (u & Hin & H); exists u; split; auto;
    now apply String.eqb_eq.
Qed.

(** A string that is not storable text fails the insert with the 22021,
    which the catch block answers with the 500. *)
Lemma createUser_unstorable (amb : ambient) (req : CreateUserRequest)
  (db : database) :
  storable req = false ->
  createUser amb req db = (internal_error, db).
Proof.
  intros Hs. unfold createUser, try_catch, await, Pg.insert_users.
  unfold storable in Hs. rewrite Hs. reflexivity.
Qed.

Lemma createUser_decided (amb : ambient) (req : CreateUserRequest)
  (db : database) :
  within_maxLength req ->
  storable req = true ->
  createUser amb req db =
  if existsb (fun u => N.eqb (Users.id u) (gen_random_uuid amb)) (users db)
     || existsb (fun u => String.eqb (Users.email u) (email req)) (users db)
  then (send 409 (error_body "Email already exists"), db)
  else (send 201 (user_body (user_of amb req)),
        mkdb (users db ++ [user_of amb req]) (urls db) (clicks db)).
Proof.
  intros (Hf & Hl & He & Hp) Hs.
  unfold createUser, try_catch, await, Pg.insert_users.
  unfold storable in Hs. rewrite Hs. cbn [negb].
  rewrite !varchar_fits, varchar_opt_fits by assumption.
  destruct (existsb _ (users db)); [reflexivity|].
  destruct (existsb _ (users db)); reflexivity.
Qed.

(** Whatever the request, the users table is left alone or gains one row
    whose email no stored row has. *)
Lemma createUser_users (amb : ambient) (req : CreateUserRequest)
  (db : database) :
  let db' := snd (createUser amb req db) in
  urls db' = urls db /\ clicks db' = clicks db
  /\ (users db' = users db
      \/ exists new, users db' = (users db ++ [new])%list
                     /\ ~ registered (Users.email new) db).
Proof.
  destruct (storable req) eqn:Hs;
    [|rewrite createUser_unstorable by assumption; cbn; auto].
  unfold createUser, try_catch, await, Pg.insert_users.
  unfold storable in Hs. rewrite Hs. cbn [negb].
  repeat match goal with
  | |- context [match Pg.varchar ?n ?ty ?s with _ => _ end] =>
      destruct (Pg.varchar n ty s)
  | |- context [match Pg.varchar_opt ?n ?ty ?s with _ => _ end] =>
      destruct (Pg.varchar_opt n ty s)
  end; try (cbn; auto; fail).
  destruct (existsb _ (users db)); [cbn; auto|].
  destruct (existsb _ (users db)) eqn:E; [cbn; auto|].
  cbn. repeat split. right. eexists. split; [reflexivity|].
  cbn. intros H. apply registered_existsb in H. congruence.
Qed.

(** ** What each request leaves of the database *)

Lemma shorten_frame (amb : ambient) (req : ShortenUrlRequest) (db : database) :
  let db' := snd (shorten amb req db) in
  users db' = users db /\ clicks db' = clicks db.
Proof.
  destruct req as [[o|] [uid|]];
    try (rewrite shorten_required by (cbn; auto); cbn; auto; fail).
  destruct (String.eqb_spec o "") as [->|Ho].
  - rewrite shorten_required by (cbn; auto). cbn; auto.
  - rewrite shorten_decided by assumption. cbv zeta.
    repeat match goal with |- context [existsb ?f ?l] =>
      destruct (existsb f l) end; cbn; auto.
Qed.

Lemma serve_clicks (amb : ambient) (r : request) (db : database) :
  clicks (snd (serve amb r db)) = clicks db.
Proof.
  destruct r as [req|id|shortId|req|userId]; cbn [serve].
  - apply shorten_frame.
  - now rewrite stats_frame.
  - now rewrite redirectHandler_frame.
  - apply createUser_users.
  - now rewrite userUrls_decided.
Qed.

Lemma serve_users (amb : ambient) (r : request) (db : database) :
  users (snd (serve amb r db)) = users db
  \/ exists new, users (snd (serve amb r db)) = (users db ++ [new])%list
                 /\ ~ registered (Users.email new) db.
Proof.
  destruct r as [req|id|shortId|req|userId]; cbn [serve].
  - left. apply shorten_frame.
  - left. now rewrite stats_frame.
  - left. now rewrite redirectHandler_frame.
  - apply createUser_users.
  - left. now rewrite userUrls_decided.
Qed.

Lemma run_clicks (reqs : list (ambient * request)) (db : database) :
  clicks (run reqs db) = clicks db.
Proof.
  revert db. induction reqs as [|[amb r] reqs IH]; intros db; cbn [run].
  - reflexivity.
  - now rewrite IH, serve_clicks.
Qed.

Lemma unique_emails_step (amb : ambient) (r : request) (db : database) :
  unique_emails db -> unique_emails (snd (serve amb r db)).
Proof.
  unfold unique_emails. intros H.
  destruct (serve_users amb r db) as [->|(new & -> & Hnew)]; [assumption|].
  rewrite map_app. cbn [map].
  apply NoDup_app; [assumption|repeat constructor; intros []|].
  intros e He [<-|[]]. apply Hnew.
  apply in_map_iff in He as (u & Hu & Hin). now exists u.
Qed.

Lemma run_unique_emails (reqs : list (ambient * request)) (db : database) :
  unique_emails db -> unique_emails (run reqs db).
Proof.
  revert db. induction reqs as [|[amb r] reqs IH]; intros db H; cbn [run].
  - assumption.
  - apply IH. now apply unique_emails_step.
Qed.

(** ** Overlapping redirects *)

Lemma advance_on_course (amb : ambient) (shortId : string) (t : task)
  (db : database) :
  known_url shortId db -> on_course shortId t ->
  on_course shortId (fst (advance amb t db)) /\ snd (advance amb t db) = db.
Proof.
  intros Hk Ht. destruct t as [s|u|r]; cbn [advance].
  - cbn in Ht. subst s. unfold Pg.select_urls_by_id.
    destruct (first_url_known shortId db Hk) as (u & Hu & _).
    unfold first_url in Hu. rewrite Hu. cbn. auto.
  - rewrite upsert_click_rejected. cbn. auto.
  - cbn. auto.
Qed.

Lemma advance_nth_on_course (shortId : string) (k : nat)
  (ts : list (ambient * task)) (db : database) :
  known_url shortId db ->
  Forall (fun at_ => on_course shortId (snd at_)) ts ->
  Forall (fun at_ => on_course shortId (snd at_)) (fst (advance_nth k ts db))
  /\ snd (advance_nth k ts db) = db.
Proof.
  intros Hk. revert k. induction ts as [|[amb t] ts IH]; intros k Hts.
  - destruct k; cbn; auto.
  - inversion Hts as [|? ? Ht Hrest]; subst. destruct k as [|k]; cbn [advance_nth].
    + destruct (advance_on_course amb shortId t db Hk Ht) as [H1 H2].
      destruct (advance amb t db) as [t' db']. cbn in *. subst db'.
      split; [constructor; assumption|reflexivity].
    + destruct (IH k Hrest) as [H1 H2].
      destruct (advance_nth k ts db) as [ts' db']. cbn in *. subst db'.
      split; [constructor; assumption|reflexivity].
Qed.

Lemma interleave_on_course (shortId : string) (schedule : list nat)
  (ts : list (ambient * task)) (db : database) :
  known_url shortId db ->
  Forall (fun at_ => on_course shortId (snd at_)) ts ->
  Forall (fun at_ => on_course shortId (snd at_))
    (fst (interleave schedule ts db))
  /\ snd (interleave schedule ts db) = db.
Proof.
  intros Hk. revert ts. induction schedule as [|k later IH]; intros ts Hts.
  - cbn. auto.
  - cbn [interleave].
    destruct (advance_nth_on_course shortId k ts db Hk Hts) as [H1 H2].
    destruct (advance_nth k ts db) as [ts' db']. cbn in *. subst db'.
    now apply IH.
Qed.

Lemma in_flight_on_course (ambs : list ambient) (shortId : string) :
  Forall (fun at_ => on_course shortId (snd at_)) (in_flight ambs shortId).
Proof.
  unfold in_flight. apply Forall_forall. intros at_ H.
  apply in_map_iff in H as (amb & <- & _). reflexivity.
Qed.

Lemma fixture_known_url : known_url "deadbeef" Fixture.db.
Proof. exists Fixture.link. split; [now left|reflexivity]. Qed.

Lemma fixture_known_user : known_user 7%N Fixture.db.
Proof. exists Fixture.alice. split; [now left|reflexivity]. Qed.


(** The shape of the statement is not at fault: over a table that declares
    [url_id] unique, the same two upserts leave one row, counted twice and
    stamped by the second. *)
Example upsert_over_unique_urlId :
  let upsert amb :=
    Pg.insert_clicks_onConflictDoUpdate Fixture.with_unique_urlId
      [Clicks.UrlId] (click_values amb Fixture.link) (click_set amb) in
  match upsert Fixture.amb Fixture.db with
  | inr (_, db1) =>
      match upsert Fixture.later db1 with
      | inr (_, db2) =>
          clicks db1
          = [Clicks.mk 21%N (Some "deadbeef") (Some 1%Z) (Some 1000%Z)]
          /\ clicks db2
             = [Clicks.mk 21%N (Some "deadbeef") (Some 2%Z) (Some 2001%Z)]
      | inl _ => False
      end
  | inl _ => False
  end.
Proof. cbn. split; reflexivity. Qed.

(** * The claims *)

(** C1: what GET /:shortId does for a stored short id.  The handler issues
    its click upsert, but the clicks table declares no unique index on
    [url_id], so the statement is rejected: the reply is a 500 and the
    database is left as it was, after one redirect and after two.  No
    click row is inserted and none is incremented. *)
Theorem redirect_known_writes_no_click (amb1 amb2 : ambient)
  (shortId : string) (db : database) :
  known_url shortId db ->
  redirectHandler amb1 shortId db = (internal_error, db)
  /\ run [(amb1, GET_shortId shortId); (amb2, GET_shortId shortId)] db = db
  /\ click_rows_of shortId
       (run [(amb1, GET_shortId shortId); (amb2, GET_shortId shortId)] db)
     = click_rows_of shortId db.
Proof.
  intros Hk.
  assert (H1 : redirectHandler amb1 shortId db = (internal_error, db))
    by now apply redirectHandler_known.
  assert (H2 : run [(amb1, GET_shortId shortId); (amb2, GET_shortId shortId)] db
               = db).
  { cbn [run serve]. rewrite H1. cbn [snd].
    now rewrite redirectHandler_known. }
  split; [assumption|]. split; [assumption|]. now rewrite H2.
Qed.

(** The theorem at the small database: two redirects of its one url. *)
Lemma redirect_known_writes_no_click_witness :
  known_url "deadbeef" Fixture.db
  /\ redirectHandler Fixture.amb "deadbeef" Fixture.db
     = (internal_error, Fixture.db)
  /\ run [(Fixture.amb, GET_shortId "deadbeef");
          (Fixture.later, GET_shortId "deadbeef")] Fixture.db = Fixture.db
  /\ click_rows_of "deadbeef"
       (run [(Fixture.amb, GET_shortId "deadbeef");
             (Fixture.later, GET_shortId "deadbeef")] Fixture.db)
     = click_rows_of "deadbeef" Fixture.db.
Proof.
  split; [exact fixture_known_url|].
  exact (redirect_known_writes_no_click Fixture.amb Fixture.later "deadbeef"
           Fixture.db fixture_known_url).
Defined.

(** C2: at most one click row per url is an invariant of the service.  If
    every url has at most one click row, then after any sequence of
    shorten, stats, redirect, create-user and list-urls requests every url
    still has at most one click row. *)
Theorem one_click_row_per_url_kept (reqs : list (ambient * request))
  (db : database) :
  one_click_row_per_url db -> one_click_row_per_url (run reqs db).
Proof.
  unfold one_click_row_per_url, click_rows_of. intros H u.
  rewrite run_clicks. apply H.
Qed.

(** The theorem at a database that holds a click row, over one request of
    each kind and a second redirect. *)
Lemma one_click_row_per_url_kept_witness :
  one_click_row_per_url Fixture.clicked
  /\ one_click_row_per_url
       (run [(Fixture.amb, POST_users Fixture.bob);
             (Fixture.amb,
              POST_shorten (mkshorten (Some "https://example.com/b") (Some 7%N)));
             (Fixture.later, GET_shortId "deadbeef");
             (Fixture.later, GET_urls_stats "deadbeef");
             (Fixture.last, GET_shortId "deadbeef");
             (Fixture.last, GET_users_urls 7%N)] Fixture.clicked).
Proof.
  assert (H : one_click_row_per_url Fixture.clicked).
  { intros u. unfold click_rows_of, Fixture.clicked.
    cbn [clicks filter Pg.optb Clicks.urlId].
    destruct (String.eqb "deadbeef" u); cbn [List.length]; lia. }
  split; [exact H|].
  exact (one_click_row_per_url_kept _ Fixture.clicked H).
Defined.

(** The database a fresh deployment starts from satisfies it too. *)
Corollary one_click_row_per_url_reachable (reqs : list (ambient * request)) :
  one_click_row_per_url (run reqs empty_db).
Proof.
  unfold one_click_row_per_url, click_rows_of. intros u.
  rewrite run_clicks. cbn. lia.
Qed.

(** C3: redirects of one stored short id that overlap in time.  Each
    issues the upsert as one statement, and under every schedule of their
    statements the database ends as it began and every redirect that has
    replied has replied 500: the clicks table gains no row, whatever the
    number of redirects. *)
Theorem overlapping_redirects_write_no_click (ambs : list ambient)
  (shortId : string) (schedule : list nat) (db : database) :
  known_url shortId db ->
  snd (interleave schedule (in_flight ambs shortId) db) = db
  /\ forall amb r,
       In (amb, replied r)
         (fst (interleave schedule (in_flight ambs shortId) db)) ->
       r = internal_error.
Proof.
  intros Hk.
  destruct (interleave_on_course shortId schedule (in_flight ambs shortId) db
              Hk (in_flight_on_course ambs shortId)) as [Hts Hdb].
  split; [assumption|].
  intros amb r Hin. rewrite Forall_forall in Hts.
  exact (Hts _ Hin).
Qed.

(** The theorem at three redirects, each served to its reply. *)
Lemma overlapping_redirects_write_no_click_witness :
  known_url "deadbeef" Fixture.db
  /\ snd (interleave [0; 1; 2; 2; 0; 1]%nat
            (in_flight [Fixture.amb; Fixture.later; Fixture.last] "deadbeef")
            Fixture.db) = Fixture.db
  /\ forall amb r,
       In (amb, replied r)
         (fst (interleave [0; 1; 2; 2; 0; 1]%nat
                 (in_flight [Fixture.amb; Fixture.later; Fixture.last]
                    "deadbeef") Fixture.db)) ->
       r = internal_error.
Proof.
  split; [exact fixture_known_url|].
  exact (overlapping_redirects_write_no_click
           [Fixture.amb; Fixture.later; Fixture.last] "deadbeef"
           [0; 1; 2; 2; 0; 1]%nat Fixture.db fixture_known_url).
Defined.

(** Three redirects in flight, each run to its reply: three 500s, and a
    clicks table as empty as before. *)
Example three_overlapping_redirects :
  interleave [0; 1; 2; 2; 0; 1]%nat
    (in_flight [Fixture.amb; Fixture.later; Fixture.last] "deadbeef")
    Fixture.db
  = ([(Fixture.amb, replied internal_error);
      (Fixture.later, replied internal_error);
      (Fixture.last, replied internal_error)], Fixture.db).
Proof. reflexivity. Qed.



(** C5, as the code has it: for every POST /shorten request whose
    originalUrl is present and not empty, whose userId names a stored user,
    and whose drawn short id and short URL are not yet in the urls table,
    the reply is 201 with the hex encoding of the 4 drawn bytes as id (8
    characters), the original URL, and a shortUrl whose final path segment
    is that id; the row is appended to the urls table. *)
Theorem shorten_created (amb : ambient) (o : string) (uid : uuid)
  (db : database) :
  o <> "" ->
  known_user uid db ->
  ~ known_url (toString_hex (randomBytes amb 4)) db ->
  ~ short_url_taken (shortUrl_of amb (toString_hex (randomBytes amb 4))) db ->
  let shortId := toString_hex (randomBytes amb 4) in
  shorten amb (mkshorten (Some o) (Some uid)) db
  = (send 201 (url_body shortId o (shortUrl_of amb shortId)),
     mkdb (users db) (urls db ++ [created amb o uid]) (clicks db))
  /\ List.length (randomBytes amb 4) = 4%nat
  /\ String.length shortId = 8%nat
  /\ final_path_segment (shortUrl_of amb shortId) = shortId.
Proof.
  intros Ho Hu Hid Hshort shortId.
  split; [|split; [apply randomBytes_length|split;
    [apply shortId_length
    |apply final_path_segment_shortUrl, toString_hex_no_slash]]].
  rewrite shorten_decided by assumption. cbv zeta.
  cbn [created Urls.id Urls.shortUrl].
  apply known_user_existsb in Hu. rewrite Hu.
  rewrite <- known_url_existsb in Hid.
  rewrite <- short_url_taken_existsb in Hshort.
  apply not_true_is_false in Hid, Hshort.
  fold shortId in Hid, Hshort |- *.
  now rewrite Hid, Hshort.
Qed.

(** The theorem at a database with one user and no url yet. *)
Lemma shorten_created_witness :
  "https://example.com/b" <> ""
  /\ known_user 7%N Fixture.db
  /\ ~ known_url (toString_hex (randomBytes Fixture.amb 4)) (mkdb [Fixture.alice] [] [])
  /\ ~ short_url_taken
         (shortUrl_of Fixture.amb (toString_hex (randomBytes Fixture.amb 4)))
         (mkdb [Fixture.alice] [] [])
  /\ shorten Fixture.amb (mkshorten (Some "https://example.com/b") (Some 7%N))
       (mkdb [Fixture.alice] [] [])
     = (send 201
          (url_body "deadbeef" "https://example.com/b"
             "http://localhost/deadbeef"),
        mkdb [Fixture.alice]
          [Urls.mk "deadbeef" "https://example.com/b"
             "http://localhost/deadbeef" (Some 7%N)] []).
Proof.
  assert (H1 : "https://example.com/b" <> "") by discriminate.
  assert (H2 : known_user 7%N (mkdb [Fixture.alice] [] []))
    by (exists Fixture.alice; split; [now left|reflexivity]).
  assert (H3 : ~ known_url (toString_hex (randomBytes Fixture.amb 4))
                 (mkdb [Fixture.alice] [] []))
    by (intros (u & [] & _)).
  assert (H4 : ~ short_url_taken
                 (shortUrl_of Fixture.amb
                    (toString_hex (randomBytes Fixture.amb 4)))
                 (mkdb [Fixture.alice] [] []))
    by (intros (u & [] & _)).
  split; [exact H1|]. split; [exact fixture_known_user|].
  split; [exact H3|]. split; [exact H4|].
  exact (proj1 (shorten_created Fixture.amb "https://example.com/b" 7%N
                  (mkdb [Fixture.alice] [] []) H1 H2 H3 H4)).
Defined.

(** C5 as stated fails where the drawn id is already stored: the payload
    is valid and its user exists, and the reply is a 500. *)
Lemma shorten_valid_payload_collides :
  known_user 7%N Fixture.db
  /\ known_url (toString_hex (randomBytes Fixture.amb 4)) Fixture.db
  /\ shorten Fixture.amb (mkshorten (Some "https://example.com/b") (Some 7%N))
       Fixture.db
     = (send 500 (error_body "Internal Server Error."), Fixture.db)
  /\ statusCode
       (fst (shorten Fixture.amb
               (mkshorten (Some "https://example.com/b") (Some 7%N))
               Fixture.db)) <> 201%Z.
Proof.
  split; [exact fixture_known_user|]. split; [exact fixture_known_url|].
  split; [reflexivity|discriminate].
Qed.

(** C6, as the code has it: POST /shorten replies 400 exactly when
    originalUrl is missing or empty or userId is missing, and then leaves
    the database as it was.  Past that check it replies 500 exactly when
    the insert fails (the drawn id is stored already, or the short URL is,
    or the user is not), again leaving the database as it was, and 201
    otherwise.  A stored id or short URL gets the same 500 as any other
    failure: the handler never replies 409. *)
Theorem shorten_replies (amb : ambient) (req : ShortenUrlRequest)
  (db : database) :
  let shortId := toString_hex (randomBytes amb 4) in
  let r := fst (shorten amb req db) in
  let required :=
    originalUrl req = None \/ originalUrl req = Some "" \/ userId req = None in
  let rejected :=
    known_url shortId db \/ short_url_taken (shortUrl_of amb shortId) db
    \/ exists uid, userId req = Some uid /\ ~ known_user uid db in
  (statusCode r = 400%Z <-> required)
  /\ (statusCode r = 500%Z <-> ~ required /\ rejected)
  /\ (statusCode r = 201%Z <-> ~ required /\ ~ rejected)
  /\ (statusCode r <> 201%Z -> snd (shorten amb req db) = db)
  /\ (statusCode r = 500%Z ->
      r = send 500 (error_body "Internal Server Error."))
  /\ classify r <> Some ConflictError.
Proof.
  intros shortId r required rejected.
  destruct (required_or_not req) as [Hreq|Hnot].
  - assert (E : shorten amb req db
                = (send 400 (error_body "Original URL and User ID are required."),
                   db)) by now apply shorten_required.
    subst r required. rewrite E. cbn.
    repeat split; try discriminate; tauto.
  - assert (Hn : ~ required) by exact Hnot. clearbody required.
    destruct req as [[o|] [uid|]]; cbn in Hnot;
      try (exfalso; apply Hnot; auto; fail).
    assert (Ho : o <> "").
    { intros ->. apply Hnot. auto. }
    subst r. rewrite shorten_decided by assumption. cbv zeta.
    cbn [created Urls.id Urls.shortUrl].
    fold shortId.
    set (b1 := existsb (fun u => String.eqb (Urls.id u) shortId) (urls db)).
    set (b2 := existsb (fun u => String.eqb (Urls.shortUrl u)
                                   (shortUrl_of amb shortId)) (urls db)).
    set (b3 := existsb (fun u => N.eqb (Users.id u) uid) (users db)).
    assert (Hrej : rejected <-> b1 = true \/ b2 = true \/ b3 = false).
    { subst rejected b1 b2 b3.
      rewrite known_url_existsb, short_url_taken_existsb.
      cbn [userId]. rewrite <- not_true_iff_false, known_user_existsb.
      split; (intros [H|[H|H]]; [now left|now right; left|right; right]).
      - destruct H as (uid' & Huid & H). now injection Huid as <-.
      - now exists uid. }
    clearbody rejected b1 b2 b3. clear Hnot.
    destruct b1, b2, b3; cbn [fst snd statusCode send classify];
      rewrite Hrej;
      repeat split; intros; try discriminate; try reflexivity;
      try (exfalso; intuition congruence); try tauto;
      intuition discriminate.
Qed.


(** C6 as stated fails on a stored id: the drawn id is in the urls table
    and the reply is the 500 of an internal error, not a conflict. *)
Lemma shorten_stored_id_is_internal_error :
  known_url (toString_hex (randomBytes Fixture.amb 4)) Fixture.db
  /\ classify
       (fst (shorten Fixture.amb
               (mkshorten (Some "https://example.com/b") (Some 7%N))
               Fixture.db)) = Some InternalError
  /\ classify
       (fst (shorten Fixture.amb
               (mkshorten (Some "https://example.com/b") (Some 7%N))
               Fixture.db)) <> Some ConflictError.
Proof.
  split; [exact fixture_known_url|]. split; [reflexivity|discriminate].
Qed.



(** C8, as the code has it: a POST /users request, as the body schema
    admits it and with no U+0000 in its strings, whose email is the email
    of a stored user gets 409 and leaves the database as it was, so no
    second row is created; and if no two stored users share an email,
    then after any sequence of requests none do. *)
Theorem createUser_duplicate_email (amb : ambient) (req : CreateUserRequest)
  (db : database) :
  within_maxLength req ->
  storable req = true ->
  registered (email req) db ->
  createUser amb req db = (send 409 (error_body "Email already exists"), db)
  /\ users (snd (createUser amb req db)) = users db
  /\ (unique_emails db -> forall reqs, unique_emails (run reqs db)).
Proof.
  intros Hfit Hs Hreg.
  assert (E : createUser amb req db
              = (send 409 (error_body "Email already exists"), db)).
  { rewrite createUser_decided by assumption.
    apply registered_existsb in Hreg. rewrite Hreg, orb_true_r.
    reflexivity. }
  split; [exact E|]. split; [now rewrite E|].
  intros Hu reqs. now apply run_unique_emails.
Qed.

(** The theorem at a second signup with the email of the stored user. *)
Lemma createUser_duplicate_email_witness :
  within_maxLength Fixture.again
  /\ storable Fixture.again = true
  /\ registered (email Fixture.again) Fixture.db
  /\ createUser Fixture.later Fixture.again Fixture.db
     = (send 409 (error_body "Email already exists"), Fixture.db)
  /\ users (snd (createUser Fixture.later Fixture.again Fixture.db))
     = users Fixture.db
  /\ (unique_emails Fixture.db ->
      forall reqs, unique_emails (run reqs Fixture.db)).
Proof.
  assert (H1 : within_maxLength Fixture.again).
  { unfold within_maxLength. cbn. repeat split; lia. }
  assert (H2 : registered (email Fixture.again) Fixture.db).
  { exists Fixture.alice. split; [now left|reflexivity]. }
  split; [exact H1|]. split; [reflexivity|]. split; [exact H2|].
  exact (createUser_duplicate_email Fixture.later Fixture.again Fixture.db
           H1 eq_refl H2).
Defined.

(** C8 as stated fails on a body with U+0000 in a name: the schema admits
    it, its email is the email of a stored user, and the reply is the 500,
    not the 409. *)
Lemma createUser_nul_name_is_500 :
  within_maxLength Sample.nul_name
  /\ registered (email Sample.nul_name) Fixture.db
  /\ createUser Fixture.later Sample.nul_name Fixture.db
     = (send 500 (error_body "Internal Server Error"), Fixture.db)
  /\ statusCode (fst (createUser Fixture.later Sample.nul_name Fixture.db))
     <> 409%Z.
Proof.
  split; [unfold within_maxLength; cbn; repeat split; lia|].
  split; [exists Fixture.alice; split; [now left|reflexivity]|].
  split; [reflexivity|discriminate].
Qed.

(** A new email, for contrast, is stored. *)
Example createUser_new_email :
  createUser Fixture.later Fixture.bob Fixture.db
  = (send 201
       (user_body
          (Users.mk 22%N "Bob" "Builder" "bob@example.com" (Some "555-0100")
             None)),
     mkdb [Fixture.alice;
           Users.mk 22%N "Bob" "Builder" "bob@example.com" (Some "555-0100")
             None] [Fixture.link] []).
Proof. reflexivity. Qed.

Lemma user_url_of_row_for (order : list nat) (userId : uuid) (db : database)
  (r : user_url) :
  In r (map user_url_of
          (filter (fun j => owned_by userId (fst j))
             (Pg.leftJoin order Pg.urls_id_eq_clicks_urlId (urls db)
                (clicks db))))
  <-> exists u, In u (urls db) /\ Urls.userId u = Some userId
                /\ row_for u db r.
Proof.
  rewrite in_map_iff. split.
  - intros ([u oc] & <- & Hj).
    apply (in_leftJoin_filter Pg.urls_id_eq_clicks_urlId order
             (owned_by userId)) in Hj as (Hin & Hown & Hoc).
    exists u. split; [assumption|]. split; [now apply owned_by_spec|].
    unfold row_for. cbn. repeat split.
    destruct oc as [c|]; [right; now exists c|left; auto].
  - intros (u & Hin & Hown & Hid & Ho & Hs & Hc).
    destruct r as [i o s cc lc]. cbn in *. subst i o s.
    destruct Hc as [(Hnone & -> & ->)|(c & Hc & -> & ->)].
    + exists (u, None). split; [reflexivity|].
      apply (in_leftJoin_filter Pg.urls_id_eq_clicks_urlId order
               (owned_by userId)).
      split; [assumption|]. split; [now apply owned_by_spec|exact Hnone].
    + exists (u, Some c). split; [reflexivity|].
      apply (in_leftJoin_filter Pg.urls_id_eq_clicks_urlId order
               (owned_by userId)).
      split; [assumption|]. split; [now apply owned_by_spec|exact Hc].
Qed.



(** For the one user of the small database: her one url, never clicked. *)
Example userUrls_alice :
  userUrls Fixture.amb 7%N Fixture.db
  = (send 200
       (user_urls_body
          [mkuu "deadbeef" "https://example.com/a" "http://localhost/deadbeef"
             None None]), Fixture.db).
Proof. reflexivity. Qed.


(** * Further properties of the handlers *)

(** ** One request at a time *)

Lemma createUser_effect (amb : ambient) (req : CreateUserRequest)
  (db : database) :
  effect db (snd (createUser amb req db)).
Proof.
  destruct (storable req) eqn:Hs;
    [|rewrite createUser_unstorable by assumption; apply no_effect].
  unfold createUser, try_catch, await, Pg.insert_users.
  unfold storable in Hs. rewrite Hs. cbn [negb].
  repeat match goal with
  | |- context [match Pg.varchar ?n ?ty ?s with _ => _ end] =>
      destruct (Pg.varchar n ty s)
  | |- context [match Pg.varchar_opt ?n ?ty ?s with _ => _ end] =>
      destruct (Pg.varchar_opt n ty s)
  end; try (cbn; apply no_effect; fail).
  match goal with
  | |- context [existsb (fun u => N.eqb (Users.id u) ?g) (users db)] =>
      destruct (existsb (fun u => N.eqb (Users.id u) g) (users db)) eqn:E1
  end; [cbn; apply no_effect|].
  match goal with
  | |- context [existsb (fun u => String.eqb (Users.email u) ?e) (users db)] =>
      destruct (existsb (fun u => String.eqb (Users.email u) e) (users db))
        eqn:E2
  end; [cbn; apply no_effect|].
  cbn. apply user_added; cbn.
  - rewrite <- known_user_existsb. congruence.
  - rewrite <- registered_existsb. congruence.
Qed.

Lemma shorten_effect (amb : ambient) (req : ShortenUrlRequest)
  (db : database) :
  effect db (snd (shorten amb req db)).
Proof.
  destruct (required_or_not req) as [Hreq|Hnot].
  - rewrite shorten_required by assumption. apply no_effect.
  - destruct req as [[o|] [uid|]]; cbn in Hnot;
      try (exfalso; apply Hnot; auto; fail).
    assert (Ho : o <> "") by (intros ->; apply Hnot; auto).
    rewrite shorten_decided by assumption. cbv zeta.
    destruct (existsb (fun u => String.eqb (Urls.id u)
                                  (Urls.id (created amb o uid))) (urls db))
      eqn:E1; [apply no_effect|].
    destruct (existsb (fun u => String.eqb (Urls.shortUrl u)
                                  (Urls.shortUrl (created amb o uid)))
                (urls db)) eqn:E2; [apply no_effect|].
    destruct (existsb (fun u => N.eqb (Users.id u) uid) (users db)) eqn:E3;
      [|apply no_effect].
    cbn [snd]. apply url_added.
    + now apply known_user_existsb.
    + rewrite <- known_url_existsb. congruence.
    + rewrite <- short_url_taken_existsb. congruence.
Qed.

Lemma serve_effect (amb : ambient) (r : request) (db : database) :
  effect db (snd (serve amb r db)).
Proof.
  destruct r as [req|id|shortId|req|userId]; cbn [serve].
  - apply shorten_effect.
  - rewrite stats_frame. apply no_effect.
  - rewrite redirectHandler_frame. apply no_effect.
  - apply createUser_effect.
  - rewrite userUrls_decided. apply no_effect.
Qed.

(** A property of databases that every effect keeps is kept by every
    sequence of requests. *)
Lemma run_keeps (P : database -> Prop) :
  (forall db db', effect db db' -> P db -> P db') ->
  forall reqs db, P db -> P (run reqs db).
Proof.
  intros Hstep reqs. induction reqs as [|[amb r] reqs IH]; intros db H.
  - exact H.
  - cbn [run]. apply IH. exact (Hstep _ _ (serve_effect amb r db) H).
Qed.

Lemma known_user_grows (uid : uuid) (db db' : database) :
  effect db db' -> known_user uid db -> known_user uid db'.
Proof.
  intros [ |new _ _|amb o u _ _ _] (x & Hin & Hx); exists x; cbn;
    (split; [|assumption]); try assumption.
  apply in_or_app. now left.
Qed.

Lemma known_url_grows (id : string) (db db' : database) :
  effect db db' -> known_url id db -> known_url id db'.
Proof.
  intros [ |new _ _|amb o u _ _ _] (x & Hin & Hx); exists x; cbn;
    (split; [|assumption]); try assumption.
  apply in_or_app. now left.
Qed.

Lemma registered_grows (e : string) (db db' : database) :
  effect db db' -> registered e db -> registered e db'.
Proof.
  intros [ |new _ _|amb o u _ _ _] (x & Hin & Hx); exists x; cbn;
    (split; [|assumption]); try assumption.
  apply in_or_app. now left.
Qed.

(** ** What every request keeps *)

Lemma NoDup_map_snoc {A B} (f : A -> B) (l : list A) (x : A) :
  NoDup (map f l) -> (forall y, In y l -> f y <> f x) ->
  NoDup (map f (l ++ [x])).
Proof.
  intros Hl Hx. rewrite map_app. cbn [map].
  apply NoDup_app; [assumption|repeat constructor; intros []|].
  intros b Hb [<-|[]]. apply in_map_iff in Hb as (y & Hy & Hin).
  exact (Hx y Hin Hy).
Qed.

Lemma NoDup_map_inj {A B} (f : A -> B) (l : list A) (x y : A) :
  NoDup (map f l) -> In x l -> In y l -> f x = f y -> x = y.
Proof.
  induction l as [|a l IH]; cbn; intros Hnd Hx Hy E; [destruct Hx|].
  inversion Hnd as [|? ? Hnotin Hrest]; subst.
  destruct Hx as [<-|Hx], Hy as [<-|Hy]; auto.
  - exfalso. apply Hnotin. rewrite E. now apply in_map.
  - exfalso. apply Hnotin. rewrite <- E. now apply in_map.
Qed.

Lemma effect_keys_unique (db db' : database) :
  effect db db' -> keys_unique db -> keys_unique db'.
Proof.
  intros [ |new Hid Hemail|amb o uid Hu Hid Hshort] (Hus & Hur & Hsh);
    unfold keys_unique, users_pkey, urls_pkey, urls_short_url_unique;
    cbn [users urls clicks]; repeat split; try assumption.
  - apply NoDup_map_snoc; [assumption|].
    intros y Hy E. apply Hid. now exists y.
  - apply NoDup_map_snoc; [assumption|].
    intros y Hy E. apply Hid. now exists y.
  - apply NoDup_map_snoc; [assumption|].
    intros y Hy E. apply Hshort. now exists y.
Qed.

Lemma effect_referential_integrity (db db' : database) :
  effect db db' -> referential_integrity db -> referential_integrity db'.
Proof.
  intros He [Hu Hc]. split.
  - intros u uid Hin Hown. apply (known_user_grows uid db db' He).
    destruct He as [ |new _ _|amb o owner Hk _ _]; cbn [urls] in Hin.
    + now apply (Hu u).
    + now apply (Hu u).
    + apply in_app_or in Hin as [Hin|[<-|[]]]; [now apply (Hu u)|].
      cbn in Hown. now injection Hown as <-.
  - intros c id Hin Hid. apply (known_url_grows id db db' He).
    apply (Hc c); [|assumption].
    destruct He; exact Hin.
Qed.

Lemma hex_digit_lower_hex (n : N) : is_lower_hex (hex_digit n) = true.
Proof.
  destruct n as [|p]; [reflexivity|].
  do 4 (try destruct p as [p|p|]); reflexivity.
Qed.

Lemma toString_hex_lower_hex (buffer : list byte) :
  lower_hex (toString_hex buffer) = true.
Proof.
  induction buffer as [|b rest IH]; [reflexivity|].
  cbn [toString_hex hex_of_byte append lower_hex].
  now rewrite !hex_digit_lower_hex, IH.
Qed.

Lemma created_minted (amb : ambient) (o : string) (uid : uuid) :
  minted (created amb o uid).
Proof.
  unfold minted, created. cbn [Urls.id Urls.shortUrl].
  split; [apply shortId_length|]. split; [apply toString_hex_lower_hex|].
  apply final_path_segment_shortUrl, toString_hex_no_slash.
Qed.

Lemma effect_all_minted (db db' : database) :
  effect db db' -> all_minted db -> all_minted db'.
Proof.
  intros [ |new _ _|amb o uid _ _ _] H u Hin; cbn [urls] in Hin;
    try now apply H.
  apply in_app_or in Hin as [Hin|[<-|[]]]; [now apply H|].
  apply created_minted.
Qed.

Lemma effect_appends (db db' : database) :
  effect db db' ->
  exists us ul,
    users db' = (users db ++ us)%list /\ urls db' = (urls db ++ ul)%list
    /\ clicks db' = clicks db.
Proof.
  intros [ |new _ _|amb o uid _ _ _]; cbn [users urls clicks].
  - exists [], []. now rewrite !app_nil_r.
  - exists [new], []. now rewrite app_nil_r.
  - exists [], [created amb o uid]. now rewrite app_nil_r.
Qed.

Lemma run_appends (reqs : list (ambient * request)) (db : database) :
  exists us ul,
    users (run reqs db) = (users db ++ us)%list
    /\ urls (run reqs db) = (urls db ++ ul)%list
    /\ clicks (run reqs db) = clicks db.
Proof.
  revert db. induction reqs as [|[amb r] reqs IH]; intros db; cbn [run].
  - exists [], []. now rewrite !app_nil_r.
  - destruct (effect_appends _ _ (serve_effect amb r db))
      as (us & ul & Hu & Hl & Hc).
    destruct (IH (snd (serve amb r db))) as (us' & ul' & Hu' & Hl' & Hc').
    exists (us ++ us')%list, (ul ++ ul')%list.
    rewrite Hu', Hl', Hc', Hu, Hl, Hc, !app_assoc. auto.
Qed.

Lemma fixture_keys_unique : keys_unique Fixture.db.
Proof.
  repeat split; repeat constructor; cbn; intros [].
Qed.

Lemma fixture_referential_integrity : referential_integrity Fixture.db.
Proof.
  split.
  - intros u uid [<-|[]] H. injection H as <-. exact fixture_known_user.
  - intros c id [].
Qed.

Lemma fixture_all_minted : all_minted Fixture.db.
Proof. intros u [<-|[]]. repeat split. Qed.

(** ** More on left joins *)

Section LeftJoinMore.
Context {A B : Type} (on : A -> B -> bool).

Lemma join_rows_app (l l' : list A) (r : list B) :
  Pg.join_rows on (l ++ l') r
  = (Pg.join_rows on l r ++ Pg.join_rows on l' r)%list.
Proof. unfold Pg.join_rows. apply flat_map_app. Qed.

Lemma joined_unmatched (a : A) (r : list B) :
  filter (on a) r = [] -> Pg.joined on a r = [(a, None)].
Proof. unfold Pg.joined. now intros ->. Qed.

End LeftJoinMore.

(** ** Signing up *)

Lemma fixture_bob_fits : within_maxLength Fixture.bob.
Proof. unfold within_maxLength. cbn. repeat split; lia. Qed.

Lemma fixture_bob_new : ~ registered (email Fixture.bob) Fixture.db.
Proof. intros (u & [<-|[]] & H). discriminate. Qed.

Lemma fixture_id_new : ~ known_user (gen_random_uuid Fixture.amb) Fixture.db.
Proof. intros (u & [<-|[]] & H). discriminate. Qed.

Lemma createUser_stored (amb : ambient) (req : CreateUserRequest)
  (db : database) :
  within_maxLength req ->
  storable req = true ->
  ~ registered (email req) db ->
  ~ known_user (gen_random_uuid amb) db ->
  createUser amb req db
  = (send 201 (user_body (user_of amb req)),
     mkdb (users db ++ [user_of amb req]) (urls db) (clicks db)).
Proof.
  intros Hfit Hs Hreg Hid. rewrite createUser_decided by assumption.
  rewrite <- registered_existsb in Hreg. rewrite <- known_user_existsb in Hid.
  apply not_true_is_false in Hreg, Hid. now rewrite Hreg, Hid.
Qed.

(** X1: POST /users with a body the schema admits, no U+0000 in its
    strings, an email no stored user has and a generated id no stored
    user has replies 201 with the new row: the generated id, the names
    and email as sent, phoneNumber and profileImageUrl as sent or null.
    The row is appended to the users table; urls and clicks are
    untouched. *)
Theorem createUser_new_email_stored (amb : ambient) (req : CreateUserRequest)
  (db : database) :
  within_maxLength req ->
  storable req = true ->
  ~ registered (email req) db ->
  ~ known_user (gen_random_uuid amb) db ->
  let new :=
    Users.mk (gen_random_uuid amb) (firstName req) (lastName req) (email req)
      (phoneNumber req) (profileImageUrl req) in
  createUser amb req db
  = (send 201 (user_body new),
     mkdb (users db ++ [new]) (urls db) (clicks db)).
Proof. intros Hfit Hs Hreg Hid. now apply createUser_stored. Qed.

(** The theorem at Bob's signup on the small database. *)
Lemma createUser_new_email_stored_witness :
  within_maxLength Fixture.bob
  /\ storable Fixture.bob = true
  /\ ~ registered (email Fixture.bob) Fixture.db
  /\ ~ known_user (gen_random_uuid Fixture.amb) Fixture.db
  /\ createUser Fixture.amb Fixture.bob Fixture.db
     = (send 201
          (user_body
             (Users.mk 21%N "Bob" "Builder" "bob@example.com"
                (Some "555-0100") None)),
        mkdb [Fixture.alice;
              Users.mk 21%N "Bob" "Builder" "bob@example.com"
                (Some "555-0100") None] [Fixture.link] []).
Proof.
  split; [exact fixture_bob_fits|]. split; [reflexivity|].
  split; [exact fixture_bob_new|]. split; [exact fixture_id_new|].
  exact (createUser_new_email_stored Fixture.amb Fixture.bob Fixture.db
           fixture_bob_fits eq_refl fixture_bob_new fixture_id_new).
Defined.

(** X2: signing up and then asking for one's urls.  Before the signup the
    generated id gets 404 from GET /users/:userId/urls; right after the
    signup of a body the schema admits, with no U+0000 in its strings and
    a new email, it gets 200 with an empty list, in a database whose urls
    reference stored users only. *)
Theorem createUser_then_userUrls (amb amb' : ambient)
  (req : CreateUserRequest) (db : database) :
  within_maxLength req ->
  storable req = true ->
  ~ registered (email req) db ->
  ~ known_user (gen_random_uuid amb) db ->
  urls_user_id_fk db ->
  userUrls amb' (gen_random_uuid amb) db
  = (send 404 (error_body "User not found"), db)
  /\ userUrls amb' (gen_random_uuid amb) (snd (createUser amb req db))
     = (send 200 (user_urls_body []), snd (createUser amb req db)).
Proof.
  intros Hfit Hs Hreg Hid Hfk. split.
  - rewrite userUrls_decided. rewrite <- known_user_existsb in Hid.
    apply not_true_is_false in Hid. now rewrite Hid.
  - rewrite createUser_stored by assumption. cbn [snd].
    rewrite userUrls_decided. cbn [users urls clicks].
    rewrite existsb_app. cbn [existsb user_of Users.id].
    rewrite N.eqb_refl. cbn [orb]. rewrite orb_true_r.
    rewrite (leftJoin_filter_none Pg.urls_id_eq_clicks_urlId
               (row_order amb') (owned_by (gen_random_uuid amb)));
      [reflexivity|].
    intros u Hin. apply not_true_is_false. intros Hown.
    apply owned_by_spec in Hown. apply Hid. exact (Hfk u _ Hin Hown).
Qed.

(** The theorem at Bob's signup on the small database. *)
Lemma createUser_then_userUrls_witness :
  within_maxLength Fixture.bob
  /\ storable Fixture.bob = true
  /\ ~ registered (email Fixture.bob) Fixture.db
  /\ ~ known_user (gen_random_uuid Fixture.amb) Fixture.db
  /\ urls_user_id_fk Fixture.db
  /\ userUrls Sample.mini 21%N Fixture.db
     = (send 404 (error_body "User not found"), Fixture.db)
  /\ userUrls Sample.mini 21%N
       (snd (createUser Fixture.amb Fixture.bob Fixture.db))
     = (send 200 (user_urls_body []),
        snd (createUser Fixture.amb Fixture.bob Fixture.db)).
Proof.
  split; [exact fixture_bob_fits|]. split; [reflexivity|].
  split; [exact fixture_bob_new|]. split; [exact fixture_id_new|].
  split; [exact (proj1 fixture_referential_integrity)|].
  exact (createUser_then_userUrls Fixture.amb Sample.mini Fixture.bob
           Fixture.db fixture_bob_fits eq_refl fixture_bob_new fixture_id_new
           (proj1 fixture_referential_integrity)).
Defined.

(** X13: an email once registered stays registered.  After the signup of a
    new email, and whatever requests are served in between, every later
    signup with the same email gets 409 and changes nothing (both bodies
    as the schema admits them, with no U+0000 in their strings). *)
Theorem registered_email_stays_refused (reqs : list (ambient * request))
  (amb amb' : ambient) (req again : CreateUserRequest) (db : database) :
  within_maxLength req ->
  storable req = true ->
  within_maxLength again ->
  storable again = true ->
  email again = email req ->
  ~ registered (email req) db ->
  ~ known_user (gen_random_uuid amb) db ->
  createUser amb' again (run reqs (snd (createUser amb req db)))
  = (send 409 (error_body "Email already exists"),
     run reqs (snd (createUser amb req db))).
Proof.
  intros Hfit Hs Hfit' Hs' Hsame Hreg Hid.
  rewrite (createUser_stored amb req db) by assumption. cbn [snd].
  rewrite createUser_decided by assumption.
  assert (H : registered (email again)
                (run reqs (mkdb (users db ++ [user_of amb req]) (urls db)
                             (clicks db)))).
  { apply (run_keeps (registered (email again))).
    - intros d d' He. now apply registered_grows.
    - exists (user_of amb req). split; [|cbn; now rewrite Hsame].
      cbn. apply in_or_app. right. now left. }
  apply registered_existsb in H. now rewrite H, orb_true_r.
Qed.

(** The theorem at Bob's signup, a day of requests, and Bob again under
    another name. *)
Lemma registered_email_stays_refused_witness :
  within_maxLength Fixture.bob
  /\ storable Fixture.bob = true
  /\ within_maxLength (mkcreate "Robert" "Builder" "bob@example.com" None None)
  /\ storable (mkcreate "Robert" "Builder" "bob@example.com" None None) = true
  /\ ~ registered (email Fixture.bob) Fixture.db
  /\ ~ known_user (gen_random_uuid Fixture.amb) Fixture.db
  /\ createUser Fixture.last
       (mkcreate "Robert" "Builder" "bob@example.com" None None)
       (run Sample.day (snd (createUser Fixture.amb Fixture.bob Fixture.db)))
     = (send 409 (error_body "Email already exists"),
        run Sample.day (snd (createUser Fixture.amb Fixture.bob Fixture.db))).
Proof.
  assert (H : within_maxLength
                (mkcreate "Robert" "Builder" "bob@example.com" None None)).
  { unfold within_maxLength. cbn. repeat split; lia. }
  split; [exact fixture_bob_fits|]. split; [reflexivity|].
  split; [exact H|]. split; [reflexivity|].
  split; [exact fixture_bob_new|]. split; [exact fixture_id_new|].
  exact (registered_email_stays_refused Sample.day Fixture.amb Fixture.last
           Fixture.bob _ Fixture.db fixture_bob_fits eq_refl H eq_refl
           eq_refl fixture_bob_new fixture_id_new).
Defined.

(** ** Shortening, then reading back *)

Lemma shorten_stored (amb : ambient) (o : string) (uid : uuid) (db : database) :
  o <> "" ->
  known_user uid db ->
  ~ known_url (toString_hex (randomBytes amb 4)) db ->
  ~ short_url_taken (shortUrl_of amb (toString_hex (randomBytes amb 4))) db ->
  shorten amb (mkshorten (Some o) (Some uid)) db
  = (send 201
       (url_body (toString_hex (randomBytes amb 4)) o
          (shortUrl_of amb (toString_hex (randomBytes amb 4)))),
     mkdb (users db) (urls db ++ [created amb o uid]) (clicks db)).
Proof.
  intros Ho Hu Hid Hshort. rewrite shorten_decided by assumption. cbv zeta.
  cbn [created Urls.id Urls.shortUrl].
  apply known_user_existsb in Hu. rewrite Hu.
  rewrite <- known_url_existsb in Hid.
  rewrite <- short_url_taken_existsb in Hshort.
  apply not_true_is_false in Hid, Hshort.
  now rewrite Hid, Hshort.
Qed.

Lemma unknown_url_no_click (id : string) (db : database) :
  clicks_url_id_fk db -> ~ known_url id db -> click_rows_of id db = [].
Proof.
  intros Hfk H. apply filter_empty_iff. intros c Hin.
  apply not_true_is_false. intros E. apply H.
  unfold Pg.optb in E. destruct (Clicks.urlId c) as [v|] eqn:Ev;
    [|discriminate].
  apply String.eqb_eq in E. subst v. exact (Hfk c id Hin Ev).
Qed.

Lemma fixture_page_new :
  ~ known_url (toString_hex (randomBytes Sample.mini 4)) Fixture.db.
Proof. intros (u & [<-|[]] & H). discriminate. Qed.

Lemma fixture_page_url_new :
  ~ short_url_taken
      (shortUrl_of Sample.mini (toString_hex (randomBytes Sample.mini 4)))
      Fixture.db.
Proof. intros (u & [<-|[]] & H). discriminate. Qed.

Lemma page_not_empty : "https://example.com/page" <> "".
Proof. discriminate. Qed.

(** Once a url row with a new id is stored, it stays the one row of that
    id. *)
Lemma sole_row_kept (new : Urls.row) (db db' : database) :
  effect db db' ->
  (In new (urls db)
   /\ forall u, In u (urls db) -> Urls.id u = Urls.id new -> u = new) ->
  In new (urls db')
  /\ forall u, In u (urls db') -> Urls.id u = Urls.id new -> u = new.
Proof.
  intros [ |added _ _|amb o uid _ Hid _] [Hin Hsole]; cbn [urls];
    try (split; assumption).
  split; [apply in_or_app; now left|].
  intros u Hu E. apply in_app_or in Hu as [Hu|[<-|[]]]; [now apply Hsole|].
  exfalso. apply Hid. exists new. now split.
Qed.

(** X3: a link once created keeps answering.  After a successful POST
    /shorten, and whatever requests are served in between, GET
    /urls/:id/stats of the new id sends 200 with that id, the original
    URL and the short URL of the creation; in a database whose click rows
    reference stored urls only, it sends clickCount 0 and the empty string
    as lastClickedAt. *)
Theorem shorten_then_stats (reqs : list (ambient * request))
  (amb amb' : ambient) (o : string) (uid : uuid) (db : database) :
  o <> "" ->
  known_user uid db ->
  ~ known_url (toString_hex (randomBytes amb 4)) db ->
  ~ short_url_taken (shortUrl_of amb (toString_hex (randomBytes amb 4))) db ->
  let shortId := toString_hex (randomBytes amb 4) in
  let db' := run reqs (snd (shorten amb (mkshorten (Some o) (Some uid)) db)) in
  exists clickCount lastClickedAt,
    stats_route amb' shortId db'
    = (mkresponse 200
         [("id", jstring shortId);
          ("originalUrl", jstring o);
          ("shortUrl", jstring (shortUrl_of amb shortId));
          ("clickCount", clickCount);
          ("lastClickedAt", lastClickedAt)], db')
    /\ (clicks_url_id_fk db ->
        clickCount = jnumber 0 /\ lastClickedAt = jstring "").
Proof.
  intros Ho Hu Hid Hshort shortId db'. subst db'.
  rewrite shorten_stored by assumption. cbn [snd].
  set (new := created amb o uid).
  set (db1 := mkdb (users db) (urls db ++ [new]) (clicks db)).
  destruct (run_appends reqs db1) as (us & ul & _ & _ & Hc).
  assert (Hsole : In new (urls (run reqs db1))
                  /\ forall u, In u (urls (run reqs db1)) ->
                               Urls.id u = Urls.id new -> u = new).
  { apply (run_keeps
             (fun d => In new (urls d)
                       /\ forall u, In u (urls d) ->
                                    Urls.id u = Urls.id new -> u = new)).
    - intros d d'. apply sole_row_kept.
    - cbn [urls db1]. split; [apply in_or_app; right; now left|].
      intros u Hin E. apply in_app_or in Hin as [Hin|[<-|[]]];
        [|reflexivity].
      exfalso. apply Hid. now exists u. }
  destruct Hsole as [Hnew Hsole].
  unfold stats_route.
  destruct (stats_cases amb' shortId (run reqs db1))
    as [[Hno _]|(u & oc & Hin & Huid & Hoc & E)].
  { exfalso. apply Hno. now exists new. }
  rewrite E. cbn.
  assert (u = new) by now apply Hsole. subst u.
  do 2 eexists. split; [reflexivity|].
  intros Hfk. destruct oc as [c|]; [|split; reflexivity].
  exfalso. unfold click_rows_of in Hoc. rewrite Hc in Hoc.
  cbn [clicks db1] in Hoc. fold (click_rows_of shortId db) in Hoc.
  rewrite unknown_url_no_click in Hoc by assumption. destruct Hoc.
Qed.

(** The theorem at a new link on the small database, read back after a
    day of requests. *)
Lemma shorten_then_stats_witness :
  "https://example.com/page" <> ""
  /\ known_user 7%N Fixture.db
  /\ ~ known_url (toString_hex (randomBytes Sample.mini 4)) Fixture.db
  /\ ~ short_url_taken
         (shortUrl_of Sample.mini (toString_hex (randomBytes Sample.mini 4)))
         Fixture.db
  /\ exists clickCount lastClickedAt,
       stats_route Fixture.last "0a0a0a0a"
         (run Sample.day (snd (shorten Sample.mini Sample.page Fixture.db)))
       = (mkresponse 200
            [("id", jstring "0a0a0a0a");
             ("originalUrl", jstring "https://example.com/page");
             ("shortUrl", jstring "https://mini.link/0a0a0a0a");
             ("clickCount", clickCount);
             ("lastClickedAt", lastClickedAt)],
          run Sample.day (snd (shorten Sample.mini Sample.page Fixture.db)))
       /\ (clicks_url_id_fk Fixture.db ->
           clickCount = jnumber 0 /\ lastClickedAt = jstring "").
Proof.
  split; [exact page_not_empty|]. split; [exact fixture_known_user|].
  split; [exact fixture_page_new|]. split; [exact fixture_page_url_new|].
  exact (shorten_then_stats Sample.day Sample.mini Fixture.last
           "https://example.com/page" 7%N Fixture.db page_not_empty
           fixture_known_user fixture_page_new fixture_page_url_new).
Defined.

(** X4: a new link shows up in its owner's list.  Right after a
    successful POST /shorten by a user, the list GET /users/:userId/urls
    replies for that user is the list it replied before plus one row, in
    some order: the row carries the new id, original URL and short URL
    with null click statistics (in a database whose click rows reference
    stored urls only). *)
Theorem shorten_then_userUrls (amb before after : ambient) (o : string)
  (uid : uuid) (db : database) :
  o <> "" ->
  known_user uid db ->
  ~ known_url (toString_hex (randomBytes amb 4)) db ->
  ~ short_url_taken (shortUrl_of amb (toString_hex (randomBytes amb 4))) db ->
  clicks_url_id_fk db ->
  let shortId := toString_hex (randomBytes amb 4) in
  let db' := snd (shorten amb (mkshorten (Some o) (Some uid)) db) in
  exists rows rows',
    userUrls before uid db = (send 200 (user_urls_body rows), db)
    /\ userUrls after uid db' = (send 200 (user_urls_body rows'), db')
    /\ Permutation rows'
         (mkuu shortId o (shortUrl_of amb shortId) None None :: rows).
Proof.
  intros Ho Hu Hid Hshort Hfk shortId db'. subst db'.
  rewrite shorten_stored by assumption. cbn [snd].
  rewrite !userUrls_decided. cbn [users urls clicks].
  apply known_user_existsb in Hu. rewrite Hu.
  do 2 eexists. split; [reflexivity|]. split; [reflexivity|].
  rewrite (Permutation_map user_url_of
             (leftJoin_filter_perm Pg.urls_id_eq_clicks_urlId
                (row_order after) (owned_by uid)
                (urls db ++ [created amb o uid]) (clicks db))).
  rewrite (Permutation_map user_url_of
             (leftJoin_filter_perm Pg.urls_id_eq_clicks_urlId
                (row_order before) (owned_by uid) (urls db) (clicks db))).
  rewrite join_rows_app, filter_app, map_app.
  assert (Hnew : filter (fun j => owned_by uid (fst j))
                   (Pg.join_rows Pg.urls_id_eq_clicks_urlId
                      [created amb o uid] (clicks db))
                 = [(created amb o uid, None)]).
  { unfold Pg.join_rows. cbn [flat_map]. rewrite app_nil_r.
    rewrite (filter_joined Pg.urls_id_eq_clicks_urlId (owned_by uid)).
    assert (Hown : owned_by uid (created amb o uid) = true).
    { apply owned_by_spec. reflexivity. }
    rewrite Hown. apply joined_unmatched.
    change (click_rows_of (Urls.id (created amb o uid)) db = []).
    now apply unknown_url_no_click. }
  rewrite Hnew. cbn [map user_url_of created Urls.id Urls.originalUrl
                       Urls.shortUrl].
  symmetry. apply Permutation_cons_append.
Qed.

(** The theorem at a new link of the one user of the small database. *)
Lemma shorten_then_userUrls_witness :
  "https://example.com/page" <> ""
  /\ known_user 7%N Fixture.db
  /\ ~ known_url (toString_hex (randomBytes Sample.mini 4)) Fixture.db
  /\ ~ short_url_taken
         (shortUrl_of Sample.mini (toString_hex (randomBytes Sample.mini 4)))
         Fixture.db
  /\ clicks_url_id_fk Fixture.db
  /\ exists rows rows',
       userUrls Fixture.amb 7%N Fixture.db
       = (send 200 (user_urls_body rows), Fixture.db)
       /\ userUrls Sample.mini 7%N
            (snd (shorten Sample.mini Sample.page Fixture.db))
          = (send 200 (user_urls_body rows'),
             snd (shorten Sample.mini Sample.page Fixture.db))
       /\ Permutation rows'
            (mkuu "0a0a0a0a" "https://example.com/page"
               "https://mini.link/0a0a0a0a" None None :: rows).
Proof.
  split; [exact page_not_empty|]. split; [exact fixture_known_user|].
  split; [exact fixture_page_new|]. split; [exact fixture_page_url_new|].
  split; [exact (proj2 fixture_referential_integrity)|].
  exact (shorten_then_userUrls Sample.mini Fixture.amb Sample.mini
           "https://example.com/page" 7%N Fixture.db page_not_empty
           fixture_known_user fixture_page_new fixture_page_url_new
           (proj2 fixture_referential_integrity)).
Defined.

(** With the order [1; 0] of the second host the new row comes first. *)
Example new_link_listed_first :
  userUrls Sample.mini 7%N (snd (shorten Sample.mini Sample.page Fixture.db))
  = (send 200
       (user_urls_body
          [mkuu "0a0a0a0a" "https://example.com/page"
             "https://mini.link/0a0a0a0a" None None;
           mkuu "deadbeef" "https://example.com/a"
             "http://localhost/deadbeef" None None]),
     snd (shorten Sample.mini Sample.page Fixture.db)).
Proof. reflexivity. Qed.

(** ** What the tables keep over any sequence of requests *)

(** X5: referential integrity is kept.  If every url's user_id names a
    stored user and every click's url_id names a stored url, the same
    holds after any sequence of requests. *)
Theorem referential_integrity_kept (reqs : list (ambient * request))
  (db : database) :
  referential_integrity db -> referential_integrity (run reqs db).
Proof.
  apply (run_keeps referential_integrity).
  intros d d'. apply effect_referential_integrity.
Qed.

(** The theorem at the small database and a day of requests. *)
Lemma referential_integrity_kept_witness :
  referential_integrity Fixture.db
  /\ referential_integrity (run Sample.day Fixture.db).
Proof.
  split; [exact fixture_referential_integrity|].
  exact (referential_integrity_kept Sample.day Fixture.db
           fixture_referential_integrity).
Defined.

(** X6: the keys stay unique.  If no two users share an id, no two urls
    share an id and no two urls share a short URL, the same holds after
    any sequence of requests. *)
Theorem keys_unique_kept (reqs : list (ambient * request)) (db : database) :
  keys_unique db -> keys_unique (run reqs db).
Proof.
  apply (run_keeps keys_unique).
  intros d d'. apply effect_keys_unique.
Qed.

(** The theorem at the small database and a day of requests. *)
Lemma keys_unique_kept_witness :
  keys_unique Fixture.db /\ keys_unique (run Sample.day Fixture.db).
Proof.
  split; [exact fixture_keys_unique|].
  exact (keys_unique_kept Sample.day Fixture.db fixture_keys_unique).
Defined.

(** X7: every url row the service adds has an id of 8 lower-case hex
    digits that is the final path segment of its short URL: if all stored
    url rows are of that shape, all are after any sequence of requests. *)
Theorem all_minted_kept (reqs : list (ambient * request)) (db : database) :
  all_minted db -> all_minted (run reqs db).
Proof.
  apply (run_keeps all_minted).
  intros d d'. apply effect_all_minted.
Qed.

(** The theorem at the small database and a day of requests. *)
Lemma all_minted_kept_witness :
  all_minted Fixture.db /\ all_minted (run Sample.day Fixture.db).
Proof.
  split; [exact fixture_all_minted|].
  exact (all_minted_kept Sample.day Fixture.db fixture_all_minted).
Defined.

(** X8: the service only appends.  After any sequence of requests the
    users table is the old one with rows added at the end, so is the urls
    table, and the clicks table is the old one: no request deletes or
    rewrites a stored row. *)
Theorem requests_only_append (reqs : list (ambient * request))
  (db : database) :
  exists us ul,
    users (run reqs db) = (users db ++ us)%list
    /\ urls (run reqs db) = (urls db ++ ul)%list
    /\ clicks (run reqs db) = clicks db.
Proof. apply run_appends. Qed.

(** ** The hex encoding of the drawn bytes *)

(** The value of a hex digit. *)
Lemma hex_digit_inj (n m : N) :
  (n < 16)%N -> (m < 16)%N -> hex_digit n = hex_digit m -> n = m.
Proof.
  intros Hn Hm.
  destruct n as [|p]; [|do 4 (try destruct p as [p|p|]); try lia];
    (destruct m as [|q]; [|do 4 (try destruct q as [q|q|]); try lia]);
    cbn; intros E; try reflexivity; discriminate E.
Qed.

Lemma hex_of_byte_inj (a b : byte) : hex_of_byte a = hex_of_byte b -> a = b.
Proof.
  unfold hex_of_byte. intros E. injection E as E1 E2.
  pose proof (Byte.to_N_bounded a) as Ha.
  pose proof (Byte.to_N_bounded b) as Hb.
  assert (Hhi : (Byte.to_N a / 16 = Byte.to_N b / 16)%N).
  { apply hex_digit_inj.
    - apply N.Div0.div_lt_upper_bound. lia.
    - apply N.Div0.div_lt_upper_bound. lia.
    - assumption. }
  assert (Hlo : (Byte.to_N a mod 16 = Byte.to_N b mod 16)%N).
  { apply hex_digit_inj.
    - apply N.mod_lt. lia.
    - apply N.mod_lt. lia.
    - assumption. }
  assert (E : Byte.to_N a = Byte.to_N b).
  { rewrite (N.div_mod (Byte.to_N a) 16), (N.div_mod (Byte.to_N b) 16) by lia.
    now rewrite Hhi, Hlo. }
  pose proof (Byte.of_to_N a) as Oa. pose proof (Byte.of_to_N b) as Ob.
  rewrite E in Oa. congruence.
Qed.

Lemma toString_hex_inj (b1 b2 : list byte) :
  toString_hex b1 = toString_hex b2 -> b1 = b2.
Proof.
  revert b2. induction b1 as [|a b1 IH]; intros [|b b2];
    cbn [toString_hex hex_of_byte append]; intros E;
    try reflexivity; try discriminate E.
  injection E as E1 E2 E3.
  assert (Hab : a = b).
  { apply hex_of_byte_inj. unfold hex_of_byte. now rewrite E1, E2. }
  subst b. f_equal. now apply IH.
Qed.

(** X9: [toString('hex')] loses nothing.  Two buffers have the same hex
    encoding exactly when they are the same bytes, so two POST /shorten
    requests get the same short id exactly when they drew the same four
    bytes; the encoding of n bytes has 2n characters, all of them
    lower-case hex digits. *)
Theorem toString_hex_faithful (b1 b2 : list byte) :
  (toString_hex b1 = toString_hex b2 <-> b1 = b2)
  /\ String.length (toString_hex b1) = (2 * List.length b1)%nat
  /\ lower_hex (toString_hex b1) = true.
Proof.
  split; [split; [apply toString_hex_inj|now intros ->]|].
  split; [apply toString_hex_length|apply toString_hex_lower_hex].
Qed.

(** X10: in a database whose url rows all have the shape POST /shorten
    gives them, the unique constraint on short_url never fires on its
    own: if the short URL a request builds is already stored, so is the
    short id it drew. *)
Theorem short_url_taken_only_with_id (amb : ambient) (db : database) :
  all_minted db ->
  short_url_taken (shortUrl_of amb (toString_hex (randomBytes amb 4))) db ->
  known_url (toString_hex (randomBytes amb 4)) db.
Proof.
  intros Hm (u & Hin & Hs). exists u. split; [assumption|].
  destruct (Hm u Hin) as (_ & _ & Hseg).
  rewrite <- Hseg, Hs.
  apply final_path_segment_shortUrl, toString_hex_no_slash.
Qed.

(** The theorem at the small database, whose one short URL is drawn
    again. *)
Lemma short_url_taken_only_with_id_witness :
  all_minted Fixture.db
  /\ short_url_taken
       (shortUrl_of Fixture.amb (toString_hex (randomBytes Fixture.amb 4)))
       Fixture.db
  /\ known_url (toString_hex (randomBytes Fixture.amb 4)) Fixture.db.
Proof.
  assert (H : short_url_taken
                (shortUrl_of Fixture.amb
                   (toString_hex (randomBytes Fixture.amb 4))) Fixture.db).
  { exists Fixture.link. split; [now left|reflexivity]. }
  split; [exact fixture_all_minted|]. split; [exact H|].
  exact (short_url_taken_only_with_id Fixture.amb Fixture.db
           fixture_all_minted H).
Defined.

(** ** Reading *)

(** X11: GET /users/:userId/urls is read-only.  For every user id and
    every database, the database after the request is the database before
    it, and the reply is the 200 or the 404. *)
Theorem userUrls_read_only (amb : ambient) (userId : uuid) (db : database) :
  snd (userUrls amb userId db) = db
  /\ (statusCode (fst (userUrls amb userId db)) = 200%Z
      \/ statusCode (fst (userUrls amb userId db)) = 404%Z).
Proof.
  rewrite userUrls_decided. split; [reflexivity|].
  cbn [fst]. destruct (existsb _ (users db)); [left|right]; reflexivity.
Qed.

(** X12: the two reports agree.  With unique url ids, for every url of a
    stored user the click statistics GET /urls/:id/stats replies are the
    statistics of a row of that url in the reply of GET
    /users/:userId/urls, whatever order either query returns its rows
    in. *)
Theorem stats_agrees_with_userUrls (amb amb' : ambient) (u : Urls.row)
  (uid : uuid) (db : database) :
  urls_pkey db ->
  In u (urls db) ->
  Urls.userId u = Some uid ->
  known_user uid db ->
  exists clickCount lastClickedAt rows,
    stats amb (Urls.id u) db
    = (send 200
         (stats_body (Urls.id u) (Urls.originalUrl u) (Urls.shortUrl u)
            clickCount lastClickedAt), db)
    /\ userUrls amb' uid db = (send 200 (user_urls_body rows), db)
    /\ In (mkuu (Urls.id u) (Urls.originalUrl u) (Urls.shortUrl u)
             clickCount lastClickedAt) rows.
Proof.
  intros Hpk Hin Hown Huser.
  destruct (stats_cases amb (Urls.id u) db)
    as [[Hno _]|(v & oc & Hvin & Hvid & Hoc & E)].
  { exfalso. apply Hno. now exists u. }
  assert (v = u) by exact (NoDup_map_inj Urls.id _ v u Hpk Hvin Hin Hvid).
  subst v. rewrite E, userUrls_decided.
  apply known_user_existsb in Huser. rewrite Huser.
  do 3 eexists. split; [reflexivity|]. split; [reflexivity|].
  apply user_url_of_row_for. exists u.
  split; [assumption|]. split; [assumption|].
  unfold row_for. cbn [uu_id uu_originalUrl uu_shortUrl uu_clickCount
                         uu_lastClickedAt].
  repeat split.
  destruct oc as [c|].
  - right. exists c. repeat split. assumption.
  - left. repeat split. assumption.
Qed.

(** The theorem at the one link of the small database. *)
Lemma stats_agrees_with_userUrls_witness :
  urls_pkey Fixture.db
  /\ In Fixture.link (urls Fixture.db)
  /\ Urls.userId Fixture.link = Some 7%N
  /\ known_user 7%N Fixture.db
  /\ exists clickCount lastClickedAt rows,
       stats Fixture.amb "deadbeef" Fixture.db
       = (send 200
            (stats_body "deadbeef" "https://example.com/a"
               "http://localhost/deadbeef" clickCount lastClickedAt),
          Fixture.db)
       /\ userUrls Sample.mini 7%N Fixture.db
          = (send 200 (user_urls_body rows), Fixture.db)
       /\ In (mkuu "deadbeef" "https://example.com/a"
                "http://localhost/deadbeef" clickCount lastClickedAt) rows.
Proof.
  assert (Hin : In Fixture.link (urls Fixture.db)) by now left.
  split; [exact (proj1 (proj2 fixture_keys_unique))|]. split; [exact Hin|].
  split; [reflexivity|]. split; [exact fixture_known_user|].
  exact (stats_agrees_with_userUrls Fixture.amb Sample.mini Fixture.link
           7%N Fixture.db (proj1 (proj2 fixture_keys_unique)) Hin eq_refl
           fixture_known_user).
Defined.

(** ** Replies *)

(** X14: what POST /users replies to a body its schema admits.  It
    replies 500 exactly when one of its strings is not text the database
    stores (it holds U+0000), 409 exactly when the strings are storable
    and the email is registered already or the generated id is taken, and
    201 otherwise, never anything else; unless it replies 201 the
    database is left as it was. *)
Theorem createUser_replies (amb : ambient) (req : CreateUserRequest)
  (db : database) :
  within_maxLength req ->
  let r := fst (createUser amb req db) in
  let clash := registered (email req) db \/ known_user (gen_random_uuid amb) db in
  (statusCode r = 500%Z <-> storable req = false)
  /\ (statusCode r = 409%Z <-> storable req = true /\ clash)
  /\ (statusCode r = 201%Z <-> storable req = true /\ ~ clash)
  /\ (statusCode r <> 201%Z -> snd (createUser amb req db) = db).
Proof.
  intros Hfit r clash. subst r clash.
  destruct (storable req) eqn:Hs.
  - rewrite createUser_decided by assumption.
    rewrite <- registered_existsb, <- known_user_existsb.
    set (b1 := existsb (fun u => N.eqb (Users.id u) (gen_random_uuid amb))
                 (users db)).
    set (b2 := existsb (fun u => String.eqb (Users.email u) (email req))
                 (users db)).
    clearbody b1 b2.
    destruct b1, b2; cbn; repeat split; intros; try discriminate;
      try reflexivity; try tauto; intuition discriminate.
  - rewrite createUser_unstorable by assumption. cbn.
    repeat split; intros; try discriminate; try reflexivity;
      try tauto; intuition discriminate.
Qed.

(** The theorem at Bob's signup on the small database. *)
Lemma createUser_replies_witness :
  within_maxLength Fixture.bob
  /\ (statusCode (fst (createUser Fixture.amb Fixture.bob Fixture.db)) = 500%Z
      <-> storable Fixture.bob = false)
  /\ (statusCode (fst (createUser Fixture.amb Fixture.bob Fixture.db)) = 409%Z
      <-> storable Fixture.bob = true
          /\ (registered (email Fixture.bob) Fixture.db
              \/ known_user (gen_random_uuid Fixture.amb) Fixture.db))
  /\ (statusCode (fst (createUser Fixture.amb Fixture.bob Fixture.db)) = 201%Z
      <-> storable Fixture.bob = true
          /\ ~ (registered (email Fixture.bob) Fixture.db
                \/ known_user (gen_random_uuid Fixture.amb) Fixture.db))
  /\ (statusCode (fst (createUser Fixture.amb Fixture.bob Fixture.db)) <> 201%Z ->
      snd (createUser Fixture.amb Fixture.bob Fixture.db) = Fixture.db).
Proof.
  split; [exact fixture_bob_fits|].
  exact (createUser_replies Fixture.amb Fixture.bob Fixture.db
           fixture_bob_fits).
Defined.



